(** * analyze_compress_log.py: log correlation and CSV export

    A shallow embedding of [fff-bench/scripts/analyze_compress_log.py]:
    the regular-expression search the script relies on, the per-line
    correlator of [process_log], the shared result table of
    [get_result_csv] and the CSV writer it drives.

    Text is ASCII: a Python [str] is a [string], a character an [ascii].
    On ASCII text Python's [\d] is [0-9], [\w] is [A-Za-z0-9_] and
    [str.strip] removes the characters 9-13, 28-31 and 32. *)

From Stdlib Require Import Ascii.
From stdpp Require Import gmap strings list fin_maps.

Local Open Scope stdpp_scope.

(** ** Characters *)

Definition newline : ascii := "010"%char.
Definition carriage_return : ascii := "013"%char.
Definition dquote : ascii := "034"%char.
Definition comma : ascii := ","%char.

Definition code_between (lo hi : N) (c : ascii) : bool :=
  (lo <=? N_of_ascii c)%N && (N_of_ascii c <=? hi)%N.

Definition is_digit (c : ascii) : bool := code_between 48 57 c.

Definition is_word (c : ascii) : bool :=
  code_between 48 57 c || code_between 65 90 c || code_between 97 122 c
  || bool_decide (c = "_"%char).

(** [str.isspace] on one ASCII character, as [str.strip()] uses it. *)
Definition is_space (c : ascii) : bool :=
  code_between 9 13 c || code_between 28 32 c.

(** ** Regular expressions

    The fragment of [re] the script's seven patterns are written in:
    literal characters, [.], the classes [\d], [\w] and [[\d.]], the
    greedy [+] on a class, concatenation, and one capture group. *)

Inductive cset : Type :=
  | CChar (c : ascii)
  | CDigit
  | CWord
  | CDot
  | CUnion (a b : cset).

Fixpoint cset_mem (cs : cset) (c : ascii) : bool :=
  match cs with
  | CChar c' => bool_decide (c = c')
  | CDigit => is_digit c
  | CWord => is_word c
  | CDot => negb (bool_decide (c = newline))
  | CUnion a b => cset_mem a c || cset_mem b c
  end.

Inductive regex : Type :=
  | Eps
  | Chr (cs : cset)
  | Plus (cs : cset)
  | Cat (r1 r2 : regex).

Fixpoint lit (s : string) : regex :=
  match s with
  | EmptyString => Eps
  | String c s' => Cat (Chr (CChar c)) (lit s')
  end.

(** A compiled pattern with exactly one capture group:
    [before (group1) after]. *)
Record Pattern : Type := mkPattern {
  before : regex;
  group1 : regex;
  after : regex
}.

Section Matching.
Context {A : Type}.

(** Greedy [cs+]: the longest run is tried first, and the matcher backs
    off one character at a time when the continuation fails. The
    continuation receives the matched text and the rest of the input. *)
Fixpoint plus_greedy (cs : cset) (s : string)
    (k : string → string → option A) : option A :=
  match s with
  | EmptyString => None
  | String c s' =>
      if cset_mem cs c then
        match plus_greedy cs s' (fun m rest => k (String c m) rest) with
        | Some x => Some x
        | None => k (String c EmptyString) s'
        end
      else None
  end.

Fixpoint mtch (r : regex) (s : string)
    (k : string → string → option A) : option A :=
  match r with
  | Eps => k EmptyString s
  | Chr cs =>
      match s with
      | String c s' =>
          if cset_mem cs c then k (String c EmptyString) s' else None
      | EmptyString => None
      end
  | Plus cs => plus_greedy cs s k
  | Cat r1 r2 =>
      mtch r1 s (fun m1 s1 => mtch r2 s1 (fun m2 s2 => k (m1 +:+ m2) s2))
  end.
End Matching.

(** A match anchored at the start of [s]; the result is [group(1)]. *)
Definition match_at (p : Pattern) (s : string) : option string :=
  mtch (before p) s (fun _ s1 =>
  mtch (group1 p) s1 (fun g s2 =>
  mtch (after p) s2 (fun _ _ => Some g))).

(** [p.search(s)] followed by [.group(1)]: the leftmost position at which
    the pattern matches; [None] when there is no match. *)
Fixpoint search (p : Pattern) (s : string) : option string :=
  match match_at p s with
  | Some g => Some g
  | None =>
      match s with
      | EmptyString => None
      | String _ s' => search p s'
      end
  end.

(** ** The script's patterns *)

Inductive Metric : Type := SIZE | SCAN_TIME.

Inductive System : Type := parquet | vortex | lance.

Global Instance Metric_eq_dec : EqDecision Metric.
Proof. solve_decision. Defined.

Global Instance System_eq_dec : EqDecision System.
Proof. solve_decision. Defined.

(** [r'/parquet/(\w+).parquet'] (the dot is unescaped in the source). *)
Definition workload_pattern : Pattern :=
  {| before := lit "/parquet/";
     group1 := Plus CWord;
     after := Cat (Chr CDot) (lit "parquet") |}.

Definition decimal : regex := Plus (CUnion CDigit (CChar "."%char)).

(** [r'<label>: ([\d.]+) MB, \d+B'] *)
Definition size_pattern (label : string) : Pattern :=
  {| before := lit (label +:+ ": ");
     group1 := decimal;
     after := Cat (lit " MB, ") (Cat (Plus CDigit) (lit "B")) |}.

(** [r'Reading <name> file took ([\d.]+)ms'] *)
Definition scan_pattern (name : string) : Pattern :=
  {| before := lit ("Reading " +:+ name +:+ " file took ");
     group1 := decimal;
     after := lit "ms" |}.

(** The three patterns of each pass of [get_result_csv] (lines 49-51 for
    the size pass, lines 54-56 for the scan-time pass). *)
Definition parquet_pattern (metric : Metric) : Pattern :=
  match metric with
  | SIZE => size_pattern "Parquet size"
  | SCAN_TIME => scan_pattern "parquet"
  end.

Definition vortex_pattern (metric : Metric) : Pattern :=
  match metric with
  | SIZE => size_pattern "Vortex size"
  | SCAN_TIME => scan_pattern "vortex"
  end.

Definition lance_pattern (metric : Metric) : Pattern :=
  match metric with
  | SIZE => size_pattern "Lance directory aggregate size"
  | SCAN_TIME => scan_pattern "lance"
  end.

(** ** Lines of a log: [log_data.strip().split('\n')] *)

Fixpoint lstrip (s : string) : string :=
  match s with
  | EmptyString => EmptyString
  | String c s' => if is_space c then lstrip s' else s
  end.

Fixpoint rstrip (s : string) : string :=
  match s with
  | EmptyString => EmptyString
  | String c s' =>
      match rstrip s' with
      | EmptyString => if is_space c then EmptyString else String c EmptyString
      | r => String c r
      end
  end.

Definition strip (s : string) : string := rstrip (lstrip s).

(** [s.split('\n')]: never empty, the empty string gives one empty line. *)
Fixpoint split_newline (s : string) : list string :=
  match s with
  | EmptyString => [EmptyString]
  | String c s' =>
      if bool_decide (c = newline) then EmptyString :: split_newline s'
      else match split_newline s' with
           | l :: ls => String c l :: ls
           | [] => [String c EmptyString]
           end
  end.

(** ** The shared result table

    [data] is a Python dict from workload to row, iterated in insertion
    order: an association list with unique keys. A row is a dict from
    field name to the extracted text. *)

Abbreviation Row := (gmap string string).
Abbreviation Table := (list (string * gmap string string)).

(** [data.setdefault(k, v)] *)
Fixpoint setdefault (data : Table) (k : string) (v : Row) : Table :=
  match data with
  | [] => [(k, v)]
  | (k', r) :: rest =>
      if decide (k' = k) then data else (k', r) :: setdefault rest k v
  end.

(** [data[k][f] = v]. Python raises KeyError when [k] is missing; the
    script only runs it after [setdefault] on the same key, so that case
    is never reached (lemma [setitem_after_setdefault]); the function
    returns the table unchanged there. *)
Fixpoint setitem (data : Table) (k f v : string) : Table :=
  match data with
  | [] => []
  | (k', r) :: rest =>
      if decide (k' = k) then (k', <[f:=v]> r) :: rest
      else (k', r) :: setitem rest k f v
  end.

(** [data.get(k)] *)
Fixpoint tlookup (data : Table) (k : string) : option (gmap string string) :=
  match data with
  | [] => None
  | (k', r) :: rest => if decide (k' = k) then Some r else tlookup rest k
  end.

(** ** The Workload Correlator: [process_log] *)

Record State : Type := mkState {
  current_workload : option string;
  current_parquet_metric : option string;
  current_vortex_metric : option string;
  current_lance_metric : option string
}.

Definition init : State := mkState None None None None.

(** Lines 35-44: the row of [w] is created if needed and the three
    fields of the metric family are written. The [else: assert False]
    branch has no counterpart: [Metric] has two members. *)
Definition commit (metric : Metric) (data : Table) (w p v l : string) : Table :=
  let data := setdefault data w ∅ in
  let data := setitem data w "workload" w in
  match metric with
  | SIZE =>
      let data := setitem data w "parquet_size" p in
      let data := setitem data w "vortex_size" v in
      setitem data w "lance_size" l
  | SCAN_TIME =>
      let data := setitem data w "parquet_scan_time" p in
      let data := setitem data w "vortex_scan_time" v in
      setitem data w "lance_scan_time" l
  end.

(** Lines 21-33: each of the four regexes is searched in the line, and a
    match overwrites its variable. *)
Definition assign (m : option string) (old : option string) : option string :=
  match m with
  | Some g => Some g
  | None => old
  end.

Definition update (pp vp lp : Pattern) (st : State) (line : string) : State :=
  {| current_workload := assign (search workload_pattern line) (current_workload st);
     current_parquet_metric := assign (search pp line) (current_parquet_metric st);
     current_vortex_metric := assign (search vp line) (current_vortex_metric st);
     current_lance_metric := assign (search lp line) (current_lance_metric st) |}.

(** Python truth value of a variable holding [None] or a [str]. *)
Definition truthy (o : option string) : option string :=
  match o with
  | Some (String c s) => Some (String c s)
  | _ => None
  end.

(** Line 34: the four values when all four are truthy. *)
Definition complete (st : State) : option (string * string * string * string) :=
  w ← truthy (current_workload st);
  p ← truthy (current_parquet_metric st);
  v ← truthy (current_vortex_metric st);
  l ← truthy (current_lance_metric st);
  Some (w, p, v, l).

(** One iteration of the loop at line 20. *)
Definition step (pp vp lp : Pattern) (metric : Metric)
    (ds : list (string * gmap string string) * State) (line : string)
    : list (string * gmap string string) * State :=
  let st := update pp vp lp ds.2 line in
  match complete st with
  | Some (w, p, v, l) => (commit metric ds.1 w p v l, init)
  | None => (ds.1, st)
  end.

Definition process_lines (pp vp lp : Pattern) (metric : Metric)
    (ds : list (string * gmap string string) * State) (lines : list string)
    : list (string * gmap string string) * State :=
  fold_left (step pp vp lp metric) lines ds.

(** [process_log], with the content of the log file for its name and the
    shared [data] passed in and returned. The transient state starts
    all-null on every call and is dropped at the end. *)
Definition process_log (data : Table) (log_data : string)
    (pp vp lp : Pattern) (metric : Metric) : Table :=
  (process_lines pp vp lp metric (data, init)
     (split_newline (strip log_data))).1.

(** One pass of [get_result_csv]: the patterns bound on lines 49-51 or
    54-56 and the metric passed with them. *)
Definition run_pass (metric : Metric) (data : Table) (log_data : string) : Table :=
  process_log data log_data
    (parquet_pattern metric) (vortex_pattern metric) (lance_pattern metric)
    metric.

(** Lines 52 and 57: the size pass, then the scan-time pass, on one table. *)
Definition result_table (compress_log scan_log : string) : Table :=
  run_pass SCAN_TIME (run_pass SIZE [] compress_log) scan_log.

(** ** The CSV Exporter: [csv.DictWriter] in the default excel dialect *)

Definition fieldnames : list string :=
  ["workload"; "parquet_size"; "vortex_size"; "lance_size";
   "lance_scan_time"; "parquet_scan_time"; "vortex_scan_time"].

Definition crlf : string := String carriage_return (String newline EmptyString).

Definition is_special (c : ascii) : bool :=
  bool_decide (c = comma) || bool_decide (c = dquote)
  || bool_decide (c = carriage_return) || bool_decide (c = newline).

Fixpoint needs_quote (s : string) : bool :=
  match s with
  | EmptyString => false
  | String c s' => is_special c || needs_quote s'
  end.

(** Every quote character is doubled. *)
Fixpoint escape (s : string) : string :=
  match s with
  | EmptyString => EmptyString
  | String c s' =>
      if bool_decide (c = dquote) then String dquote (String dquote (escape s'))
      else String c (escape s')
  end.

(** QUOTE_MINIMAL: a field is quoted when it holds the delimiter, the
    quote character or a character of the line terminator. *)
Definition csv_field (s : string) : string :=
  if needs_quote s
  then String dquote (escape s +:+ String dquote EmptyString)
  else s.

Fixpoint join (sep : string) (l : list string) : string :=
  match l with
  | [] => EmptyString
  | [x] => x
  | x :: rest => x +:+ sep +:+ join sep rest
  end.

(** [csv.writer.writerow]: a record made of one empty field is written
    as a pair of quotes. *)
Definition writerow (cells : list string) : string :=
  match cells with
  | [EmptyString] => String dquote (String dquote crlf)
  | _ => join "," (csv_field <$> cells) +:+ crlf
  end.

(** [DictWriter._dict_to_list]: ValueError (here [None]) on a key outside
    [fieldnames], and the rest value [''] for a missing field. *)
Definition dict_to_list (row : Row) : option (list string) :=
  if bool_decide (map_Forall (λ k _, k ∈ fieldnames) row)
  then Some ((λ f, default EmptyString (row !! f)) <$> fieldnames)
  else None.

Definition dict_writerow (row : Row) : option string :=
  writerow <$> dict_to_list row.

(** Lines 59-65 on a table: the header, then a record per workload in
    the order of the table; [None] when a [writerow] raises. *)
Definition write_csv (data : Table) : option string :=
  records ← mapM (λ kr, dict_writerow kr.2) data;
  Some (writerow fieldnames +:+ fold_right String.app EmptyString records).

(** [get_result_csv] as a function from the contents of
    [compress_bench.log] and [scan_bench.log] to the text written to
    [RESULT_CSV_PATH]. *)
Definition get_result_csv (compress_log scan_log : string) : option string :=
  write_csv (result_table compress_log scan_log).

(** ** Re-reading the exported file *)

Inductive Mode : Type :=
  | StartRecord
  | StartField
  | InField
  | InQuoted
  | QuoteInQuoted
  | AfterCR.

Record Reader : Type := mkReader {
  records : list (list string);
  fields : list string;
  cur : string;
  mode : Mode
}.

Definition snoc (s : string) (c : ascii) : string := s +:+ String c EmptyString.

Definition add_char (rd : Reader) (c : ascii) (m : Mode) : Reader :=
  mkReader (records rd) (fields rd) (snoc (cur rd) c) m.

Definition save_field (rd : Reader) : Reader :=
  mkReader (records rd) (fields rd ++ [cur rd]) EmptyString StartField.

Definition save_record (rd : Reader) (m : Mode) : Reader :=
  mkReader (records rd ++ [fields rd ++ [cur rd]]) [] EmptyString m.

Definition set_mode (rd : Reader) (m : Mode) : Reader :=
  mkReader (records rd) (fields rd) (cur rd) m.

Definition start_field (rd : Reader) (c : ascii) : Reader :=
  if bool_decide (c = dquote) then set_mode rd InQuoted
  else if bool_decide (c = comma) then save_field rd
  else if bool_decide (c = carriage_return) then save_record rd AfterCR
  else if bool_decide (c = newline) then save_record rd StartRecord
  else add_char rd c InField.

Definition start_record (rd : Reader) (c : ascii) : Reader :=
  if bool_decide (c = carriage_return) then set_mode rd AfterCR
  else if bool_decide (c = newline) then set_mode rd StartRecord
  else start_field rd c.

(** Modelled from the spec: the re-parsing of the exported CSV back into
    rows. The repository holds no reader of its own (the later rendering
    step hands the file to [pandas.read_csv]); this is the reader of the
    dialect the exporter writes: records end at a line terminator outside
    quotes, cells are separated by commas, a cell that opens with a quote
    runs to the closing quote with doubled quotes standing for one, empty
    lines are skipped, and cells stay text. *)
Definition feed (rd : Reader) (c : ascii) : Reader :=
  match mode rd with
  | StartRecord => start_record rd c
  | StartField => start_field rd c
  | InField =>
      if bool_decide (c = comma) then save_field rd
      else if bool_decide (c = carriage_return) then save_record rd AfterCR
      else if bool_decide (c = newline) then save_record rd StartRecord
      else add_char rd c InField
  | InQuoted =>
      if bool_decide (c = dquote) then set_mode rd QuoteInQuoted
      else add_char rd c InQuoted
  | QuoteInQuoted =>
      if bool_decide (c = dquote) then add_char rd c InQuoted
      else if bool_decide (c = comma) then save_field rd
      else if bool_decide (c = carriage_return) then save_record rd AfterCR
      else if bool_decide (c = newline) then save_record rd StartRecord
      else add_char rd c InField
  | AfterCR =>
      if bool_decide (c = newline) then set_mode rd StartRecord
      else start_record rd c
  end.

Fixpoint feed_all (rd : Reader) (s : string) : Reader :=
  match s with
  | EmptyString => rd
  | String c s' => feed_all (feed rd c) s'
  end.

Definition finish (rd : Reader) : list (list string) :=
  match mode rd with
  | StartRecord | AfterCR => records rd
  | _ => records rd ++ [fields rd ++ [cur rd]]
  end.

(** Modelled from the spec: the records of a CSV text, for the re-parsing
    the repository leaves to [pandas.read_csv]. *)
Definition parse_csv (text : string) : list (list string) :=
  finish (feed_all (mkReader [] [] EmptyString StartRecord) text).

(** Modelled from the spec: a parsed record as a row, an empty cell being
    an absent field. *)
Definition to_row (header cells : list string) : Row :=
  list_to_map (filter (λ kv, kv.2 ≠ EmptyString) (zip header cells)).

(** Modelled from the spec: the rows of a CSV text whose first record
    names the columns. *)
Definition read_csv (text : string) : list (gmap string string) :=
  match parse_csv text with
  | [] => []
  | header :: rest => to_row header <$> rest
  end.

(** ** Vocabulary of the statements *)

Definition pattern_of (metric : Metric) (sys : System) : Pattern :=
  match sys with
  | parquet => parquet_pattern metric
  | vortex => vortex_pattern metric
  | lance => lance_pattern metric
  end.

Definition slot (st : State) (sys : System) : option string :=
  match sys with
  | parquet => current_parquet_metric st
  | vortex => current_vortex_metric st
  | lance => current_lance_metric st
  end.

Definition set_slot (st : State) (sys : System) (x : string) : State :=
  match sys with
  | parquet => mkState (current_workload st) (Some x)
                 (current_vortex_metric st) (current_lance_metric st)
  | vortex => mkState (current_workload st) (current_parquet_metric st)
                 (Some x) (current_lance_metric st)
  | lance => mkState (current_workload st) (current_parquet_metric st)
                 (current_vortex_metric st) (Some x)
  end.

Definition set_workload (st : State) (w : string) : State :=
  mkState (Some w) (current_parquet_metric st)
    (current_vortex_metric st) (current_lance_metric st).

(** The key under which a system's value is stored for a metric family. *)
Definition field (metric : Metric) (sys : System) : string :=
  match metric, sys with
  | SIZE, parquet => "parquet_size"
  | SIZE, vortex => "vortex_size"
  | SIZE, lance => "lance_size"
  | SCAN_TIME, parquet => "parquet_scan_time"
  | SCAN_TIME, vortex => "vortex_scan_time"
  | SCAN_TIME, lance => "lance_scan_time"
  end.

(** A workload header: a line in which only the workload pattern matches. *)
Definition header_line (metric : Metric) (line w : string) : Prop :=
  search workload_pattern line = Some w ∧
  ∀ sys, search (pattern_of metric sys) line = None.

(** A measurement line of [sys]: a line in which only the pattern of that
    system matches. *)
Definition measure_line (metric : Metric) (line : string) (sys : System)
    (x : string) : Prop :=
  search workload_pattern line = None ∧
  search (pattern_of metric sys) line = Some x ∧
  ∀ sys', sys' ≠ sys → search (pattern_of metric sys') line = None.

Definition is_some {A} (o : option A) : bool :=
  match o with Some _ => true | None => false end.

Definition all_non_null (st : State) : bool :=
  is_some (current_workload st) && is_some (current_parquet_metric st)
  && is_some (current_vortex_metric st) && is_some (current_lance_metric st).

(** One pass on the lines of a log, with the script's patterns. *)
Definition scan (metric : Metric)
    (ds : list (string * gmap string string) * State) (lines : list string)
    : list (string * gmap string string) * State :=
  process_lines (parquet_pattern metric) (vortex_pattern metric)
    (lance_pattern metric) metric ds lines.

(** One iteration of that pass. *)
Definition scan_step (metric : Metric)
    (ds : list (string * gmap string string) * State) (line : string)
    : list (string * gmap string string) * State :=
  step (parquet_pattern metric) (vortex_pattern metric)
    (lance_pattern metric) metric ds line.

(** What [commit] does to the row of its workload. *)
Definition write_fields (metric : Metric) (w p v l : string) (r : Row) : Row :=
  <[field metric lance := l]> (<[field metric vortex := v]>
    (<[field metric parquet := p]> (<["workload" := w]> r))).

(** The row [commit] leaves in an empty table. *)
Definition fresh_row (metric : Metric) (w p v l : string) : Row :=
  write_fields metric w p v l ∅.

(** The table has a row for [w] that names [w] as its workload and holds,
    under the key of each system for the metric, the value [vals] gives
    that system. *)
Definition has_row (metric : Metric)
    (data : list (string * gmap string string)) (w : string)
    (vals : System → string) : Prop :=
  ∃ row, tlookup data w = Some row
         ∧ row !! "workload" = Some w
         ∧ ∀ sys, row !! field metric sys = Some (vals sys).

(** The workloads committed by a pass, in order: each step is run on an
    empty table and the keys it leaves there are collected. *)
Fixpoint committed (metric : Metric) (st : State) (lines : list string)
    : list string :=
  match lines with
  | [] => []
  | line :: rest =>
      let r := scan_step metric ([], st) line in
      r.1.*1 ++ committed metric r.2 rest
  end.

Definition add_key (acc : list string) (x : string) : list string :=
  if bool_decide (x ∈ acc) then acc else acc ++ [x].

(** The keys of a list in the order of their first occurrence. *)
Definition first_seen (l : list string) : list string :=
  fold_left add_key l [].

Fixpoint all_chars (P : ascii → bool) (s : string) : bool :=
  match s with
  | EmptyString => true
  | String c s' => P c && all_chars P s'
  end.

Definition nl : string := String newline EmptyString.

Definition demo_size_log : string :=
  "bench /mnt/data/parquet/core.parquet" +:+ nl +:+
  "Parquet size: 12.5 MB, 13107200B" +:+ nl +:+
  "Vortex size: 9.25 MB, 9699328B" +:+ nl +:+
  "Lance directory aggregate size: 14 MB, 14680064B" +:+ nl.

Definition demo_scan_log : string :=
  "bench /mnt/data/parquet/lineitem.parquet" +:+ nl +:+
  "Reading parquet file took 3.5ms" +:+ nl +:+
  "Reading vortex file took 2.25ms" +:+ nl +:+
  "Reading lance file took 4ms" +:+ nl.

Definition demo_header : string := "bench /mnt/data/parquet/core.parquet".

Definition demo_line (sys : System) : string :=
  match sys with
  | parquet => "Parquet size: 12.5 MB, 13107200B"
  | vortex => "Vortex size: 9.25 MB, 9699328B"
  | lance => "Lance directory aggregate size: 14 MB, 14680064B"
  end.

Definition demo_vals (sys : System) : string :=
  match sys with
  | parquet => "12.5"
  | vortex => "9.25"
  | lance => "14"
  end.

Definition demo_header2 : string := "bench /mnt/data/parquet/lineitem.parquet".

(** The cluster of [demo_size_log] with the lance line first and the
    header second. *)
Definition demo_shuffled_log : string :=
  demo_line lance +:+ nl +:+ demo_header +:+ nl +:+
  demo_line vortex +:+ nl +:+ demo_line parquet +:+ nl.

Definition csv_header : string :=
  "workload,parquet_size,vortex_size,lance_size,lance_scan_time,parquet_scan_time,vortex_scan_time".

(** The measurement lines of a second occurrence, with other values. *)
Definition demo_line2 (sys : System) : string :=
  match sys with
  | parquet => "Parquet size: 7.5 MB, 7864320B"
  | vortex => "Vortex size: 6.25 MB, 6553600B"
  | lance => "Lance directory aggregate size: 8 MB, 8388608B"
  end.

Definition demo_vals2 (sys : System) : string :=
  match sys with
  | parquet => "7.5"
  | vortex => "6.25"
  | lance => "8"
  end.

(** How the second pass sees a row: the fields it writes win, the
    fields of the earlier row stay. *)
Definition merge_row (new old : option (gmap string string))
    : option (gmap string string) :=
  match new with
  | Some r => Some (r ∪ default ∅ old)
  | None => old
  end.

(** A row written by passes of one metric family only. *)
Definition family_row (metric : Metric) (w : string) (r : Row) : Prop :=
  r !! "workload" = Some w
  ∧ (∀ sys, is_Some (r !! field metric sys))
  ∧ ∀ f, f ≠ "workload" → (∀ sys, f ≠ field metric sys) → r !! f = None.

(** Every text held by the four variables satisfies [Q]. *)
Definition slots_all (Q : string → Prop) (st : State) : Prop :=
  (∀ x, current_workload st = Some x → Q x)
  ∧ ∀ sys x, slot st sys = Some x → Q x.

(** The slots hold [None] or a non-empty text. *)
Definition slots_ok (st : State) : Prop := slots_all (λ x, x ≠ EmptyString) st.

(** A row without its empty cells. *)
Definition drop_empty (r : Row) : Row :=
  filter (λ kv, kv.2 ≠ EmptyString) r.

(** A reader that stands at the start of a cell with nothing read of it. *)
Definition at_start (rd : Reader) : Prop :=
  cur rd = EmptyString ∧ (mode rd = StartRecord ∨ mode rd = StartField).

(** A table whose rows hold a comma, quotes, a line break and an empty
    value. *)
Definition demo_rows : list (string * gmap string string) :=
  [("core", <["workload" := "core"]> (<["parquet_size" := "12.5"]>
              (<["lance_scan_time" := ""]> ∅)));
   ("a,b", <["workload" := "a,b"]>
             (<["vortex_size" := String dquote "x"]>
                (<["lance_size" := "1" +:+ crlf +:+ "2"]> ∅)))].

(** A text the CSV writer leaves unquoted. *)
Definition plain (x : string) : Prop := needs_quote x = false.

(** A row the exporter accepts and writes without quoting. *)
Definition row_ok (r : Row) : Prop :=
  map_Forall (λ k v, k ∈ fieldnames ∧ plain v) r.

(** The seven cells of a row, the rest value standing for a missing
    field, and the line they make when no cell needs quoting. *)
Definition cells (r : Row) : list string :=
  (λ f, default EmptyString (r !! f)) <$> fieldnames.

Definition record_line (r : Row) : string := join "," (cells r) +:+ crlf.

(** ** The Comparison Renderer: the names [plot] builds

    [plot] reads the exported file into a data frame and draws one chart
    per metric. Its arithmetic is on floats and its drawing is done by
    the plotting library; what is embedded here are the column names it
    looks up and the paths it writes. *)

(** [str(metric)] for the [StrEnum] of lines 8-10, as the f-strings of
    [subplot] format it. *)
Definition metric_value (metric : Metric) : string :=
  match metric with
  | SIZE => "size"
  | SCAN_TIME => "scan_time"
  end.

Definition system_name (sys : System) : string :=
  match sys with
  | parquet => "parquet"
  | vortex => "vortex"
  | lance => "lance"
  end.

(** Lines 78-80: [df[f'parquet_{metric}']], [df[f'vortex_{metric}']],
    [df[f'lance_{metric}']]. *)
Definition subplot_column (metric : Metric) (sys : System) : string :=
  system_name sys +:+ "_" +:+ metric_value metric.

(** Line 101: [f'./data/{metric}_comparison_bar_graph.png']. *)
Definition savefig_path (metric : Metric) : string :=
  "./data/" +:+ metric_value metric +:+ "_comparison_bar_graph.png".

(** ** More vocabulary *)

(** A line in which at least one of the four patterns of a pass matches. *)
Definition relevant (metric : Metric) (line : string) : bool :=
  is_some (search workload_pattern line)
  || is_some (search (parquet_pattern metric) line)
  || is_some (search (vortex_pattern metric) line)
  || is_some (search (lance_pattern metric) line).

(** The number of lines in which a pattern matches. *)
Definition count_matches (p : Pattern) (lines : list string) : nat :=
  length (filter (λ l, is_some (search p l)) lines).

(** The literal text a measurement pattern starts with. *)
Definition measurement_label (metric : Metric) (sys : System) : string :=
  match metric, sys with
  | SIZE, parquet => "Parquet size: "
  | SIZE, vortex => "Vortex size: "
  | SIZE, lance => "Lance directory aggregate size: "
  | SCAN_TIME, parquet => "Reading parquet file took "
  | SCAN_TIME, vortex => "Reading vortex file took "
  | SCAN_TIME, lance => "Reading lance file took "
  end.

(** What follows the value in a line the pattern of a metric matches:
    [" MB, "], digits [n] and ["B"] for a size, ["ms"] for a scan time. *)
Definition measurement_tail (metric : Metric) (n : string) : string :=
  match metric with
  | SIZE => " MB, " +:+ n +:+ "B"
  | SCAN_TIME => "ms"
  end.

Definition is_decimal (c : ascii) : bool :=
  cset_mem (CUnion CDigit (CChar "."%char)) c.

Definition head_char (s : string) : ascii :=
  match s with
  | String c _ => c
  | EmptyString => " "%char
  end.

(** No character of [s] is [c]. *)
Definition lacks (c : ascii) (s : string) : bool :=
  all_chars (λ c', negb (bool_decide (c' = c))) s.

(** The greedy run of [cs] cannot go on into [rest]. *)
Definition stops (cs : cset) (rest : string) : bool :=
  match rest with
  | EmptyString => true
  | String c _ => negb (cset_mem cs c)
  end.

(** No slash of [s] is directly followed by the letter p. *)
Fixpoint no_slash_p (s : string) : bool :=
  match s with
  | String c1 ((String c2 _) as t) =>
      negb (bool_decide (c1 = "/"%char) && bool_decide (c2 = "p"%char))
      && no_slash_p t
  | _ => true
  end.

(** The lines [ls] are a well-formed cluster of the workload [w] with the
    values [vals]: a header line of [w] and one measurement line per
    system, in some order. *)
Definition well_formed_cluster (metric : Metric) (w : string)
    (vals : System → string) (ls : list string) : Prop :=
  ∃ h line_of,
    header_line metric h w
    ∧ (∀ sys, measure_line metric (line_of sys) sys (vals sys))
    ∧ ls ≡ₚ [h; line_of parquet; line_of vortex; line_of lance].

(** The commit of one cluster, given as workload, values and lines. *)
Definition commit_cluster (metric : Metric)
    (data : list (string * gmap string string))
    (c : string * (System → string) * list string)
    : list (string * gmap string string) :=
  commit metric data c.1.1 (c.1.2 parquet) (c.1.2 vortex) (c.1.2 lance).

(** Every text held by a row satisfies [Q] and stands under one of the
    seven field names. *)
Definition row_values (Q : string → Prop) (r : Row) : Prop :=
  map_Forall (λ f x, f ∈ fieldnames ∧ Q x) r.

Definition value_ok (x : string) : Prop :=
  x ≠ EmptyString ∧ needs_quote x = false.

(** * Properties *)

Example search_parquet_size :
  search (parquet_pattern SIZE) "Parquet size: 12.5 MB, 13107200B" = Some "12.5".
Proof. vm_compute. reflexivity. Qed.

Example search_workload :
  search workload_pattern "reading /data/parquet/core.parquet now" = Some "core".
Proof. vm_compute. reflexivity. Qed.

Example search_workload_backtrack :
  search workload_pattern "/parquet/aXparquetYparquet" = Some "aXparquet".
Proof. vm_compute. reflexivity. Qed.

Example search_leftmost :
  search (parquet_pattern SCAN_TIME)
    "Reading parquet file took 3.5ms, Reading parquet file took 9ms"
  = Some "3.5".
Proof. vm_compute. reflexivity. Qed.

Example search_no_match :
  search (parquet_pattern SIZE) "Parquet size: 12.5 MB, 13107200 B" = None.
Proof. vm_compute. reflexivity. Qed.

Example split_strip_empty : split_newline (strip "") = [""].
Proof. reflexivity. Qed.

(** ** What a search captures *)

Section Captures.
Context {A : Type}.

Lemma plus_greedy_inv cs s (k : string → string → option A) x :
  plus_greedy cs s k = Some x →
  ∃ m rest, k m rest = Some x ∧ m ≠ EmptyString
            ∧ all_chars (cset_mem cs) m = true.
Proof.
  revert k. induction s as [|c s IH]; intros k; simpl; [done|].
  destruct (cset_mem cs c) eqn:Hc; [|done].
  destruct (plus_greedy cs s _) as [y|] eqn:Hrec.
  - intros [= ->]. apply IH in Hrec as (m & rest & Hk & _ & Hm).
    exists (String c m), rest. simpl. rewrite Hc, Hm. done.
  - intros Hk. exists (String c EmptyString), s. simpl. rewrite Hc. done.
Qed.

Lemma mtch_inv r s (k : string → string → option A) x :
  mtch r s k = Some x → ∃ m rest, k m rest = Some x.
Proof.
  revert s k. induction r as [|cs|cs|r1 IH1 r2 IH2]; intros s k; simpl.
  - eauto.
  - destruct s as [|c s]; [done|]. destruct (cset_mem cs c); [eauto|done].
  - intros H. apply plus_greedy_inv in H as (m & rest & ? & _). eauto.
  - intros H. apply IH1 in H as (m1 & s1 & H).
    apply IH2 in H as (m2 & s2 & H). eauto.
Qed.
End Captures.

Lemma search_inv p s g : search p s = Some g → ∃ s', match_at p s' = Some g.
Proof.
  induction s as [|c s IH]; simpl.
  - destruct (match_at p EmptyString) eqn:E; [|done]. intros [= ->]. eauto.
  - destruct (match_at p (String c s)) eqn:E; [intros [= ->]; eauto|done].
Qed.

Lemma capture_plus p cs s g :
  group1 p = Plus cs → search p s = Some g →
  g ≠ EmptyString ∧ all_chars (cset_mem cs) g = true.
Proof.
  intros Hg Hs. apply search_inv in Hs as [s' Hm].
  unfold match_at in Hm. rewrite Hg in Hm.
  apply mtch_inv in Hm as (_ & s1 & Hm). simpl in Hm.
  apply plus_greedy_inv in Hm as (m & s2 & Hm & Hne & Hall).
  apply mtch_inv in Hm as (_ & _ & [= ->]). done.
Qed.

Lemma workload_capture line w :
  search workload_pattern line = Some w →
  w ≠ EmptyString ∧ all_chars is_word w = true.
Proof. apply (capture_plus workload_pattern CWord). done. Qed.

Lemma metric_capture metric sys line x :
  search (pattern_of metric sys) line = Some x →
  x ≠ EmptyString
  ∧ all_chars (cset_mem (CUnion CDigit (CChar "."%char))) x = true.
Proof. apply capture_plus. by destruct metric, sys. Qed.

(** ** The per-line step on header and measurement lines *)

Lemma truthy_nonempty x : x ≠ EmptyString → truthy (Some x) = Some x.
Proof. by destruct x. Qed.

Lemma scan_nil metric ds : scan metric ds [] = ds.
Proof. done. Qed.

Lemma scan_cons metric ds line lines :
  scan metric ds (line :: lines) = scan metric (scan_step metric ds line) lines.
Proof. done. Qed.

Lemma scan_app metric ds l1 l2 :
  scan metric ds (l1 ++ l2) = scan metric (scan metric ds l1) l2.
Proof. unfold scan, process_lines. apply fold_left_app. Qed.

Lemma update_header metric st h w :
  header_line metric h w →
  update (parquet_pattern metric) (vortex_pattern metric)
    (lance_pattern metric) st h = set_workload st w.
Proof.
  intros [Hw Hs]. unfold update, set_workload.
  pose proof (Hs parquet) as Hp. pose proof (Hs vortex) as Hv.
  pose proof (Hs lance) as Hl. simpl in Hp, Hv, Hl.
  rewrite Hw, Hp, Hv, Hl. done.
Qed.

Lemma update_measure metric st line sys x :
  measure_line metric line sys x →
  update (parquet_pattern metric) (vortex_pattern metric)
    (lance_pattern metric) st line = set_slot st sys x.
Proof.
  intros (Hw & Hx & Hs). unfold update, set_slot. rewrite Hw.
  pose proof (Hs parquet) as Hp. pose proof (Hs vortex) as Hv.
  pose proof (Hs lance) as Hl. simpl in Hp, Hv, Hl.
  destruct sys; simpl in Hx; rewrite Hx.
  - rewrite Hv, Hl by done. by destruct st.
  - rewrite Hp, Hl by done. by destruct st.
  - rewrite Hp, Hv by done. by destruct st.
Qed.

Lemma header_nonempty metric h w : header_line metric h w → w ≠ EmptyString.
Proof. intros [Hw _]. by apply workload_capture in Hw as [? _]. Qed.

Lemma measure_nonempty metric line sys x :
  measure_line metric line sys x → x ≠ EmptyString.
Proof. intros (_ & Hx & _). by apply metric_capture in Hx as [? _]. Qed.

Lemma scan_step_header metric data st h w :
  header_line metric h w →
  scan_step metric (data, st) h =
    match complete (set_workload st w) with
    | Some (w, p, v, l) => (commit metric data w p v l, init)
    | None => (data, set_workload st w)
    end.
Proof. intros H. unfold scan_step, step. simpl. by rewrite (update_header _ _ _ _ H). Qed.

Lemma scan_step_measure metric data st line sys x :
  measure_line metric line sys x →
  scan_step metric (data, st) line =
    match complete (set_slot st sys x) with
    | Some (w, p, v, l) => (commit metric data w p v l, init)
    | None => (data, set_slot st sys x)
    end.
Proof. intros H. unfold scan_step, step. simpl. by rewrite (update_measure _ _ _ _ _ H). Qed.

(** ** The table operations *)

Lemma tlookup_setdefault (data : Table) k v k' :
  tlookup (setdefault data k v) k' =
    if decide (k = k') then Some (default v (tlookup data k))
    else tlookup data k'.
Proof.
  induction data as [|[k0 r0] data IH]; simpl.
  - destruct (decide (k = k')); done.
  - destruct (decide (k0 = k)) as [->|Hne]; simpl.
    + destruct (decide (k = k')); done.
    + rewrite IH. destruct (decide (k0 = k')) as [->|]; [|done].
      by rewrite decide_False by done.
Qed.

Lemma tlookup_setitem (data : Table) k f v k' :
  tlookup (setitem data k f v) k' =
    if decide (k = k') then insert f v <$> tlookup data k
    else tlookup data k'.
Proof.
  induction data as [|[k0 r0] data IH]; simpl.
  - destruct (decide (k = k')); done.
  - destruct (decide (k0 = k)) as [->|Hne]; simpl.
    + destruct (decide (k = k')); done.
    + rewrite IH. destruct (decide (k0 = k')) as [->|]; [|done].
      by rewrite decide_False by done.
Qed.

Lemma keys_setdefault (data : Table) k v :
  (setdefault data k v).*1 = add_key data.*1 k.
Proof.
  unfold add_key. induction data as [|[k0 r0] data IH]; [done|].
  cbn [setdefault]. destruct (decide (k0 = k)) as [->|Hne]; rewrite !fmap_cons.
  - rewrite bool_decide_true by left. done.
  - rewrite IH. cbn [fst]. destruct (bool_decide (k ∈ data.*1)) eqn:E.
    + apply bool_decide_eq_true in E. rewrite bool_decide_true by by right. done.
    + apply bool_decide_eq_false in E. rewrite bool_decide_false; [done|].
      intros [?|?]%elem_of_cons; done.
Qed.

Lemma keys_setitem (data : Table) k f v : (setitem data k f v).*1 = data.*1.
Proof.
  induction data as [|[k0 r0] data IH]; [done|].
  cbn [setitem]. destruct (decide (k0 = k)); rewrite !fmap_cons; by rewrite ?IH.
Qed.


Lemma setitem_after_setdefault (data : Table) k v f x :
  tlookup (setitem (setdefault data k v) k f x) k
  = Some (<[f:=x]> (default v (tlookup data k))).
Proof.
  by rewrite tlookup_setitem, decide_True, tlookup_setdefault, decide_True.
Qed.

Lemma tlookup_commit metric (data : Table) w p v l w' :
  tlookup (commit metric data w p v l) w' =
    if decide (w = w')
    then Some (write_fields metric w p v l (default ∅ (tlookup data w)))
    else tlookup data w'.
Proof.
  unfold commit, write_fields.
  destruct metric; cbn zeta; rewrite !tlookup_setitem, !tlookup_setdefault;
    rewrite ?(decide_True (P := w = w)) by done;
    destruct (decide (w = w')); done.
Qed.

Lemma keys_commit metric (data : Table) w p v l :
  (commit metric data w p v l).*1 = add_key data.*1 w.
Proof.
  unfold commit.
  destruct metric; simpl; by rewrite !keys_setitem, keys_setdefault.
Qed.

Lemma commit_empty metric w p v l :
  commit metric [] w p v l = [(w, fresh_row metric w p v l)].
Proof.
  unfold commit, fresh_row, write_fields. simpl. destruct metric; simpl;
    repeat (rewrite decide_True by done; simpl); done.
Qed.

Lemma write_fields_workload metric w p v l r :
  write_fields metric w p v l r !! "workload" = Some w.
Proof.
  unfold write_fields.
  destruct metric; simpl; by rewrite !lookup_insert_ne, lookup_insert_eq by done.
Qed.

Lemma write_fields_field metric w r (vals : System → string) sys :
  write_fields metric w (vals parquet) (vals vortex) (vals lance) r
    !! field metric sys = Some (vals sys).
Proof.
  unfold write_fields.
  destruct metric, sys; simpl;
    by rewrite ?(lookup_insert_ne _ _ _ _), lookup_insert_eq by done.
Qed.

Lemma has_row_commit metric (data : Table) w (vals : System → string) :
  has_row metric
    (commit metric data w (vals parquet) (vals vortex) (vals lance)) w vals.
Proof.
  eexists. rewrite tlookup_commit, decide_True by done.
  split_and!; [done|apply write_fields_workload|].
  intros sys. apply write_fields_field.
Qed.

Lemma tlookup_commit_ne metric (data : Table) w p v l w' :
  w' ≠ w → tlookup (commit metric data w p v l) w' = tlookup data w'.
Proof. intros Hne. by rewrite tlookup_commit, decide_False. Qed.

Lemma complete_Some w p v l :
  w ≠ EmptyString → p ≠ EmptyString → v ≠ EmptyString → l ≠ EmptyString →
  complete (mkState (Some w) (Some p) (Some v) (Some l)) = Some (w, p, v, l).
Proof.
  intros. unfold complete.
  cbn [current_workload current_parquet_metric current_vortex_metric
       current_lance_metric].
  by rewrite !truthy_nonempty.
Qed.

Lemma complete_None st : all_non_null st = false → complete st = None.
Proof.
  destruct st as [[w|] [p|] [v|] [l|]]; try done; intros _;
    unfold complete;
    cbn [current_workload current_parquet_metric current_vortex_metric
         current_lance_metric];
    repeat match goal with
           | |- context [truthy (Some ?x)] => destruct (truthy (Some x))
           end;
    reflexivity.
Qed.

(** Runs the leading step of a [scan] on a line known to be a header or
    a measurement line, and evaluates the completeness test. *)
Ltac scan_one :=
  rewrite scan_cons;
  first [ erewrite scan_step_header by eassumption
        | erewrite scan_step_measure by eauto ];
  unfold set_workload, set_slot, init;
  cbn [current_workload current_parquet_metric current_vortex_metric
       current_lance_metric];
  first [ rewrite complete_Some
            by eauto using header_nonempty, measure_nonempty
        | rewrite complete_None by reflexivity ];
  fold init.

Section Cluster.
Variable metric : Metric.
Variables (h w : string) (line_of vals : System → string).
Hypothesis Hh : header_line metric h w.
Hypothesis Hm : ∀ sys, measure_line metric (line_of sys) sys (vals sys).

Lemma cluster_scan data ls :
  ls ≡ₚ [h; line_of parquet; line_of vortex; line_of lance] →
  scan metric (data, init) ls
  = (commit metric data w (vals parquet) (vals vortex) (vals lance), init).
Proof.
  intros Hp. symmetry in Hp. apply permutations_Permutation in Hp.
  cbv [permutations interleave mbind list_bind fmap list_fmap app
       foldr mret list_ret] in Hp.
  repeat (apply elem_of_cons in Hp as [->|Hp]);
    [ .. | by apply elem_of_nil in Hp ];
    repeat scan_one; reflexivity.
Qed.
End Cluster.

(** C1: a well-formed four-line cluster (a header line and one measurement
    line per system, in any order), processed from the all-null state,
    commits exactly once, for the workload of the header: the state is
    reset, the row of that workload holds the workload and, under the key
    of each system for the active metric, the value captured from that
    system's line; no other row changes and at most this one key is added
    to the table. *)
Theorem C1_cluster_commits_one_row
    (metric : Metric) (h w : string) (line_of vals : System → string)
    (log_data : string) (data : Table) :
  header_line metric h w →
  (∀ sys, measure_line metric (line_of sys) sys (vals sys)) →
  split_newline (strip log_data)
    ≡ₚ [h; line_of parquet; line_of vortex; line_of lance] →
  let data' := run_pass metric data log_data in
  scan metric (data, init) (split_newline (strip log_data)) = (data', init)
  ∧ data' = commit metric data w (vals parquet) (vals vortex) (vals lance)
  ∧ (∃ row, tlookup data' w = Some row
            ∧ row !! "workload" = Some w
            ∧ ∀ sys, row !! field metric sys = Some (vals sys))
  ∧ (∀ w', w' ≠ w → tlookup data' w' = tlookup data w')
  ∧ data'.*1 = add_key data.*1 w
  ∧ run_pass metric [] log_data
    = [(w, fresh_row metric w (vals parquet) (vals vortex) (vals lance))].
Proof.
  intros Hh Hm Hp data'.
  assert (Hrun : ∀ d, run_pass metric d log_data
      = commit metric d w (vals parquet) (vals vortex) (vals lance)).
  { intros d. unfold run_pass, process_log.
    change (process_lines _ _ _ metric (d, init) ?ls) with (scan metric (d, init) ls).
    by rewrite (cluster_scan metric h w line_of vals Hh Hm d _ Hp). }
  subst data'. rewrite !Hrun. split_and!.
  - apply (cluster_scan metric h w line_of vals Hh Hm data _ Hp).
  - done.
  - eexists. rewrite tlookup_commit, decide_True by done.
    split_and!; [done|apply write_fields_workload|].
    intros sys. apply write_fields_field.
  - intros w' Hne. by rewrite tlookup_commit, decide_False.
  - apply keys_commit.
  - apply commit_empty.
Qed.

Lemma demo_header_line : header_line SIZE demo_header "core".
Proof. split; [|intros []]; vm_compute; reflexivity. Defined.

Lemma demo_measure_line sys :
  measure_line SIZE (demo_line sys) sys (demo_vals sys).
Proof.
  split_and!; [destruct sys; vm_compute; reflexivity
              |destruct sys; vm_compute; reflexivity|].
  intros sys' Hne. destruct sys, sys'; try (vm_compute; reflexivity); done.
Defined.

Lemma C1_cluster_commits_one_row_witness :
  run_pass SIZE [] demo_shuffled_log
  = [("core", fresh_row SIZE "core" "12.5" "9.25" "14")].
Proof.
  apply (C1_cluster_commits_one_row SIZE demo_header "core" demo_line
           demo_vals demo_shuffled_log []).
  - exact demo_header_line.
  - exact demo_measure_line.
  - apply (bool_decide_unpack _). vm_compute. reflexivity.
Defined.

(** C7: the size-pass parquet pattern captures the text 12.5 from the line
    [Parquet size: 12.5 MB, 13107200B]; whatever the state, the line
    only fills the parquet slot with that text, so under the current
    workload core the pending parquet value is the string 12.5; and in a
    size log where the line stands in the cluster of core, the row of
    core gets it under parquet_size. *)
Theorem C7_parquet_size_line :
  search (parquet_pattern SIZE) "Parquet size: 12.5 MB, 13107200B" = Some "12.5"
  ∧ (∀ st, update (parquet_pattern SIZE) (vortex_pattern SIZE)
             (lance_pattern SIZE) st "Parquet size: 12.5 MB, 13107200B"
           = set_slot st parquet "12.5")
  ∧ update (parquet_pattern SIZE) (vortex_pattern SIZE) (lance_pattern SIZE)
      (mkState (Some "core") None None None) "Parquet size: 12.5 MB, 13107200B"
    = mkState (Some "core") (Some "12.5") None None
  ∧ run_pass SIZE [] demo_size_log
    = [("core", fresh_row SIZE "core" "12.5" "9.25" "14")]
  ∧ fresh_row SIZE "core" "12.5" "9.25" "14" !! "parquet_size" = Some "12.5".
Proof.
  split_and!.
  - vm_compute. reflexivity.
  - intros st. apply (update_measure SIZE). exact (demo_measure_line parquet).
  - vm_compute. reflexivity.
  - vm_compute. reflexivity.
  - vm_compute. reflexivity.
Qed.

(** C8: on an empty log [process_log] leaves the table as it is, so that
    no row is committed, whatever the patterns and the metric; with both
    logs empty the file written by [get_result_csv] is the header line
    alone. *)
Theorem C8_empty_log :
  (∀ data pp vp lp metric, process_log data "" pp vp lp metric = data)
  ∧ process_log [] "" (parquet_pattern SIZE) (vortex_pattern SIZE)
      (lance_pattern SIZE) SIZE = []
  ∧ result_table "" "" = []
  ∧ get_result_csv "" "" = Some (csv_header +:+ crlf).
Proof.
  split_and!.
  - intros data pp vp lp metric. unfold process_log, process_lines. simpl.
    unfold step, complete, update. simpl. done.
  - vm_compute. reflexivity.
  - vm_compute. reflexivity.
  - vm_compute. reflexivity.
Qed.

(** ** Measurements that outlive their header *)

Lemma systems_perm s1 s2 s3 :
  [s1; s2; s3] ≡ₚ [parquet; vortex; lance] →
  [s1; s2; s3] ∈ permutations [parquet; vortex; lance].
Proof. intros Hp. apply permutations_Permutation. by symmetry. Qed.

(** C9: a workload header does not clear the pending slots; a measurement
    line read before any header, or under an earlier header that never
    completed, stays pending across the next header and is committed in
    the row of that next workload once the two other systems are read:
    after the lines, the table has a row for the later workload that
    holds, under the key of each system, the value of that system's
    line, the one read before the later header included; the rows of
    the other workloads, the earlier header's among them, are as they
    were before. *)
Theorem C9_pending_survives_header
    (metric : Metric) (h1 w1 h2 w2 : string) (line_of vals : System → string)
    (s1 s2 s3 : System) (data : Table) :
  header_line metric h1 w1 →
  header_line metric h2 w2 →
  (∀ sys, measure_line metric (line_of sys) sys (vals sys)) →
  [s1; s2; s3] ≡ₚ [parquet; vortex; lance] →
  (∀ st sys,
     slot (update (parquet_pattern metric) (vortex_pattern metric)
             (lance_pattern metric) st h2) sys = slot st sys)
  ∧ scan metric (data, init) [line_of s1; h2; line_of s2; line_of s3]
    = (commit metric data w2 (vals parquet) (vals vortex) (vals lance), init)
  ∧ scan metric (data, init) [h1; line_of s1; h2; line_of s2; line_of s3]
    = (commit metric data w2 (vals parquet) (vals vortex) (vals lance), init)
  ∧ has_row metric
      (scan metric (data, init) [line_of s1; h2; line_of s2; line_of s3]).1
      w2 vals
  ∧ has_row metric
      (scan metric (data, init)
         [h1; line_of s1; h2; line_of s2; line_of s3]).1
      w2 vals
  ∧ (∃ row,
       tlookup (scan metric (data, init)
                  [h1; line_of s1; h2; line_of s2; line_of s3]).1 w2
       = Some row
       ∧ row !! field metric s1 = Some (vals s1))
  ∧ (∀ w', w' ≠ w2 →
       tlookup (scan metric (data, init)
                  [line_of s1; h2; line_of s2; line_of s3]).1 w'
       = tlookup data w'
       ∧ tlookup (scan metric (data, init)
                    [h1; line_of s1; h2; line_of s2; line_of s3]).1 w'
         = tlookup data w').
Proof.
  intros H1 H2 Hm Hp.
  assert (Hscan :
    scan metric (data, init) [line_of s1; h2; line_of s2; line_of s3]
    = (commit metric data w2 (vals parquet) (vals vortex) (vals lance), init)
    ∧ scan metric (data, init) [h1; line_of s1; h2; line_of s2; line_of s3]
      = (commit metric data w2 (vals parquet) (vals vortex) (vals lance),
         init)).
  { apply systems_perm in Hp.
    cbv [permutations interleave mbind list_bind fmap list_fmap app
         foldr mret list_ret] in Hp.
    repeat (apply elem_of_cons in Hp as [Hp|Hp]);
      [ .. | by apply elem_of_nil in Hp ];
      injection Hp as -> -> ->; split; repeat scan_one; reflexivity. }
  destruct Hscan as [Ha Hb]. rewrite Ha, Hb. cbn [fst].
  split_and!; try done.
  - intros st sys. rewrite (update_header _ _ _ _ H2). by destruct sys.
  - apply has_row_commit.
  - apply has_row_commit.
  - destruct (has_row_commit metric data w2 vals) as (row & Hrow & _ & Hf).
    exists row. by split.
  - intros w' Hne. by rewrite tlookup_commit_ne.
Qed.

Lemma demo_header2_line : header_line SIZE demo_header2 "lineitem".
Proof. split; [|intros []]; vm_compute; reflexivity. Defined.

Lemma C9_pending_survives_header_witness :
  ∃ row,
    tlookup (scan SIZE ([], init)
               [demo_header; demo_line parquet; demo_header2;
                demo_line vortex; demo_line lance]).1 "lineitem"
    = Some row
    ∧ row !! field SIZE parquet = Some (demo_vals parquet).
Proof.
  apply (C9_pending_survives_header SIZE demo_header "core" demo_header2
           "lineitem" demo_line demo_vals parquet vortex lance []).
  - exact demo_header_line.
  - exact demo_header2_line.
  - exact demo_measure_line.
  - reflexivity.
Defined.

(** ** The state between lines *)


Lemma update_slots_all metric (Q : string → Prop) st line :
  (∀ l w, search workload_pattern l = Some w → Q w) →
  (∀ sys l x, search (pattern_of metric sys) l = Some x → Q x) →
  slots_all Q st →
  slots_all Q (update (parquet_pattern metric) (vortex_pattern metric)
                 (lance_pattern metric) st line).
Proof.
  intros HQw HQs [Hw Hs]. split.
  - intros x. unfold update. simpl.
    destruct (search workload_pattern line) as [g|] eqn:E; simpl.
    + intros [= <-]. by eapply HQw.
    + apply Hw.
  - intros sys x. unfold update.
    pose proof (HQs sys line) as Hc.
    pose proof (Hs sys) as Hs'.
    destruct sys; simpl in *;
      match goal with
      | |- assign ?o _ = _ → _ => destruct o as [g|]; simpl
      end;
      try (intros [= <-]; by apply Hc);
      apply Hs'.
Qed.







(** ** A header repeated before its cluster completes *)

Lemma all_non_null_slot_None st sys : slot st sys = None → all_non_null st = false.
Proof. destruct st as [[?|] [?|] [?|] [?|]], sys; simpl; done. Qed.

Lemma slot_set_slot_ne st sys sys' x :
  sys ≠ sys' → slot (set_slot st sys x) sys' = slot st sys'.
Proof. by destruct sys, sys'. Qed.

Lemma set_slot_slots_ok st sys x :
  x ≠ EmptyString → slots_ok st → slots_ok (set_slot st sys x).
Proof.
  intros Hx [Hw Hs]. split.
  - by destruct sys.
  - intros sys' y. pose proof (Hs sys' y) as Hs'.
    destruct sys, sys'; simpl in *; try done; by intros [= <-].
Qed.

(** Measurement lines that leave the system [s0] unmeasured commit
    nothing: they only fill slots. *)
Lemma early_scan metric s0 early :
  Forall (λ l, ∃ sys x, sys ≠ s0 ∧ measure_line metric l sys x) early →
  ∀ (data : Table) st, slot st s0 = None → slots_ok st →
  ∃ st', scan metric (data, st) early = (data, st')
         ∧ slot st' s0 = None
         ∧ current_workload st' = current_workload st
         ∧ slots_ok st'.
Proof.
  induction 1 as [|l early (sys & x & Hne & Hml) _ IH]; intros data st H0 Hok.
  - by exists st.
  - rewrite scan_cons, (scan_step_measure _ _ _ _ _ _ Hml).
    rewrite complete_None
      by (apply (all_non_null_slot_None _ s0); by rewrite slot_set_slot_ne).
    destruct (IH data (set_slot st sys x)) as (st' & Hscan & Hs0 & Hw & Hok').
    + by rewrite slot_set_slot_ne.
    + apply set_slot_slots_ok; [|done]. by eapply measure_nonempty.
    + exists st'. split_and!; try done. rewrite Hw. by destruct sys.
Qed.

Section Later.
Variable metric : Metric.
Variables (h2 w2 : string) (line_of vals : System → string).
Hypothesis H2 : header_line metric h2 w2.
Hypothesis Hm : ∀ sys, measure_line metric (line_of sys) sys (vals sys).

(** The later cluster, header first, read in a state where some slot is
    still empty. *)
Lemma later_cluster (data : Table) st s0 s1 s2 s3 :
  [s1; s2; s3] ≡ₚ [parquet; vortex; lance] →
  slots_ok st → slot st s0 = None →
  let r := scan metric (data, st) [h2; line_of s1; line_of s2; line_of s3] in
  match slot st s3 with
  | None =>
      r = (commit metric data w2 (vals parquet) (vals vortex) (vals lance),
           init)
  | Some e =>
      ∃ got : System → string,
        r.1 = commit metric data w2 (got parquet) (got vortex) (got lance)
        ∧ got s3 = e
        ∧ (∀ s, got s = vals s ∨ slot st s = Some (got s))
        ∧ current_workload r.2 = None
        ∧ slot r.2 s3 = Some (vals s3)
  end.
Proof.
  intros Hp [_ Hs] H0 r. subst r. apply systems_perm in Hp.
  pose proof (Hs parquet) as Hsp. pose proof (Hs vortex) as Hsv.
  pose proof (Hs lance) as Hsl. clear Hs.
  cbv [permutations interleave mbind list_bind fmap list_fmap app
       foldr mret list_ret] in Hp.
  destruct st as [cw p v l]. simpl in Hsp, Hsv, Hsl.
  repeat (apply elem_of_cons in Hp as [Hp|Hp]);
    [ .. | by apply elem_of_nil in Hp ];
    injection Hp as -> -> ->;
    destruct p as [ep|], v as [ev|], l as [el|];
    try (by destruct s0);
    repeat match goal with
           | H : ∀ x, Some ?e = Some x → _ |- _ => specialize (H e eq_refl)
           | H : ∀ x, None = Some x → _ |- _ => clear H
           end;
    cbn [slot current_parquet_metric current_vortex_metric
         current_lance_metric];
    try (repeat scan_one; reflexivity);
    (eexists (λ s, match s with parquet => _ | vortex => _ | lance => _ end);
     repeat scan_one; rewrite scan_nil;
     split_and!; [reflexivity|reflexivity| |reflexivity|reflexivity];
     intros []; simpl; auto).
Qed.
End Later.

Lemma demo_measure_line2 sys :
  measure_line SIZE (demo_line2 sys) sys (demo_vals2 sys).
Proof.
  split_and!; [destruct sys; vm_compute; reflexivity
              |destruct sys; vm_compute; reflexivity|].
  intros sys' Hne. destruct sys, sys'; try (vm_compute; reflexivity); done.
Defined.

(** C2, as the code has it: when a second header is read before the
    cluster of the first has its three measurements (the lines [early]
    after the first header leave the system [s0] unmeasured), the first
    occurrence commits no row, and the only commit made while the later
    cluster (header first, then its three measurement lines in any order)
    is read is a row of the later header's workload: afterwards every
    other workload has the row it had before, and the later workload is
    the one key the table may have gained. That row holds the later
    occurrence's three measurements when the last measurement line of
    the later cluster is for a system with nothing pending from the
    first occurrence. When that last system did have a pending value [e],
    the commit comes before the line is read: the row keeps [e] for it,
    every value of the row is either the later occurrence's or one left
    pending by the first, and the later value of the last system stays
    pending with no current workload. *)
Theorem C2_repeated_header
    (metric : Metric) (h1 w1 h2 w2 : string) (early : list string)
    (s0 : System) (line_of vals : System → string) (s1 s2 s3 : System)
    (data : Table) :
  header_line metric h1 w1 →
  header_line metric h2 w2 →
  Forall (λ l, ∃ sys x, sys ≠ s0 ∧ measure_line metric l sys x) early →
  (∀ sys, measure_line metric (line_of sys) sys (vals sys)) →
  [s1; s2; s3] ≡ₚ [parquet; vortex; lance] →
  ∃ st1,
    scan metric (data, init) (h1 :: early) = (data, st1)
    ∧ let r := scan metric (data, init)
                 (h1 :: early ++ [h2; line_of s1; line_of s2; line_of s3]) in
      (∀ w', w' ≠ w2 → tlookup r.1 w' = tlookup data w')
      ∧ r.1.*1 = add_key data.*1 w2
      ∧ match slot st1 s3 with
        | None =>
            r = (commit metric data w2 (vals parquet) (vals vortex)
                   (vals lance), init)
            ∧ has_row metric r.1 w2 vals
        | Some e =>
            ∃ got : System → string,
              r.1 = commit metric data w2 (got parquet) (got vortex)
                      (got lance)
              ∧ got s3 = e
              ∧ (∀ s, got s = vals s ∨ slot st1 s = Some (got s))
              ∧ current_workload r.2 = None
              ∧ slot r.2 s3 = Some (vals s3)
              ∧ has_row metric r.1 w2 got
              ∧ (∃ row, tlookup r.1 w2 = Some row
                        ∧ row !! field metric s3 = Some e)
        end.
Proof.
  intros H1 H2 Hearly Hm Hp.
  assert (Hst : slots_ok (set_workload init w1)).
  { split; [|by intros []]. intros x [= <-]. by eapply header_nonempty. }
  destruct (early_scan metric s0 early Hearly data (set_workload init w1))
    as (st1 & Hscan & Hs0 & _ & Hok); [by destruct s0|done|].
  assert (Hfirst : scan metric (data, init) (h1 :: early) = (data, st1)).
  { rewrite scan_cons, (scan_step_header _ _ _ _ _ H1).
    by rewrite complete_None by done. }
  exists st1. split; [done|].
  rewrite app_comm_cons, scan_app, Hfirst.
  pose proof (later_cluster metric h2 w2 line_of vals H2 Hm data st1
                s0 s1 s2 s3 Hp Hok Hs0) as Hl.
  cbv zeta in Hl |- *.
  destruct (slot st1 s3) as [e|].
  - destruct Hl as (got & Hr & Hg & Hall & Hw & Hs). rewrite Hr.
    split_and!.
    + intros w' Hne. by apply tlookup_commit_ne.
    + apply keys_commit.
    + exists got. split_and!; try done; [apply has_row_commit|].
      destruct (has_row_commit metric data w2 got) as (row & Hrow & _ & Hf).
      exists row. split; [done|]. by rewrite Hf, Hg.
  - rewrite Hl. cbn [fst]. split_and!.
    + intros w' Hne. by apply tlookup_commit_ne.
    + apply keys_commit.
    + done.
    + apply has_row_commit.
Qed.

Lemma C2_repeated_header_witness :
  ∃ st1,
    scan SIZE ([], init) [demo_header; demo_line parquet] = ([], st1)
    ∧ let r := scan SIZE ([], init)
                 (demo_header :: [demo_line parquet]
                  ++ [demo_header2; demo_line2 vortex; demo_line2 lance;
                      demo_line2 parquet]) in
      (∀ w', w' ≠ "lineitem" → tlookup r.1 w' = tlookup [] w')
      ∧ r.1.*1 = add_key [] "lineitem"
      ∧ match slot st1 parquet with
        | None =>
            r = (commit SIZE [] "lineitem" (demo_vals2 parquet)
                   (demo_vals2 vortex) (demo_vals2 lance), init)
            ∧ has_row SIZE r.1 "lineitem" demo_vals2
        | Some e =>
            ∃ got : System → string,
              r.1 = commit SIZE [] "lineitem" (got parquet) (got vortex)
                      (got lance)
              ∧ got parquet = e
              ∧ (∀ s, got s = demo_vals2 s ∨ slot st1 s = Some (got s))
              ∧ current_workload r.2 = None
              ∧ slot r.2 parquet = Some (demo_vals2 parquet)
              ∧ has_row SIZE r.1 "lineitem" got
              ∧ (∃ row, tlookup r.1 "lineitem" = Some row
                        ∧ row !! field SIZE parquet = Some e)
        end.
Proof.
  apply (C2_repeated_header SIZE demo_header "core" demo_header2 "lineitem"
           [demo_line parquet] lance demo_line2 demo_vals2
           vortex lance parquet []).
  - exact demo_header_line.
  - exact demo_header2_line.
  - constructor; [|constructor].
    exists parquet, "12.5". split; [discriminate|exact (demo_measure_line parquet)].
  - exact demo_measure_line2.
  - apply (bool_decide_unpack _). vm_compute. reflexivity.
Defined.

(** C2 as stated fails: with the log
    header core, parquet 12.5, header lineitem, vortex 6.25, lance 8,
    parquet 7.5 the row of lineitem is committed at the lance line with
    the parquet value 12.5 read under the header of core, not with 7.5. *)
Lemma C2_counterexample :
  ¬ (∀ (metric : Metric) (h1 w1 h2 w2 : string) (early : list string)
       (s0 : System) (line_of vals : System → string) (s1 s2 s3 : System)
       (data : Table),
      header_line metric h1 w1 →
      header_line metric h2 w2 →
      Forall (λ l, ∃ sys x, sys ≠ s0 ∧ measure_line metric l sys x) early →
      (∀ sys, measure_line metric (line_of sys) sys (vals sys)) →
      [s1; s2; s3] ≡ₚ [parquet; vortex; lance] →
      (scan metric (data, init)
         (h1 :: early ++ [h2; line_of s1; line_of s2; line_of s3])).1
      = commit metric data w2 (vals parquet) (vals vortex) (vals lance)).
Proof.
  intros H.
  specialize (H SIZE demo_header "core" demo_header2 "lineitem"
                [demo_line parquet] lance demo_line2 demo_vals2
                vortex lance parquet []
                demo_header_line demo_header2_line).
  assert (Hrow :
    tlookup (scan SIZE ([], init)
       (demo_header :: [demo_line parquet]
        ++ [demo_header2; demo_line2 vortex; demo_line2 lance;
            demo_line2 parquet])).1 "lineitem" ≫= (.!! "parquet_size")
    = Some "12.5") by (vm_compute; reflexivity).
  rewrite H in Hrow.
  - vm_compute in Hrow. discriminate.
  - constructor; [|constructor].
    exists parquet, "12.5". split; [discriminate|exact (demo_measure_line parquet)].
  - exact demo_measure_line2.
  - apply (bool_decide_unpack _). vm_compute. reflexivity.
Qed.

(** ** Rows are only added or rewritten *)

Lemma scan_step_unfold metric (data : Table) st line :
  scan_step metric (data, st) line =
    match complete (update (parquet_pattern metric) (vortex_pattern metric)
                      (lance_pattern metric) st line) with
    | Some (w, p, v, l) => (commit metric data w p v l, init)
    | None => (data, update (parquet_pattern metric) (vortex_pattern metric)
                       (lance_pattern metric) st line)
    end.
Proof. done. Qed.



Lemma write_fields_other metric w p v l r f :
  f ≠ "workload" → (∀ sys, f ≠ field metric sys) →
  write_fields metric w p v l r !! f = r !! f.
Proof.
  intros Hw Hf. unfold write_fields.
  pose proof (Hf parquet). pose proof (Hf vortex). pose proof (Hf lance).
  by rewrite !lookup_insert_ne.
Qed.



(** ** The two passes on one table *)

Lemma write_fields_union metric w p v l (r1 r2 : gmap string string) :
  write_fields metric w p v l (r1 ∪ r2) = write_fields metric w p v l r1 ∪ r2.
Proof. unfold write_fields. by rewrite !insert_union_l. Qed.

Lemma commit_merge metric (d d0 dd : Table) w p v l :
  (∀ k, tlookup dd k = merge_row (tlookup d0 k) (tlookup d k)) →
  ∀ k, tlookup (commit metric dd w p v l) k
       = merge_row (tlookup (commit metric d0 w p v l) k) (tlookup d k).
Proof.
  intros H k. rewrite !tlookup_commit.
  destruct (decide (w = k)) as [<-|]; [|apply H].
  rewrite H. simpl. f_equal.
  destruct (tlookup d0 w) as [r0|]; simpl.
  - apply write_fields_union.
  - by rewrite <-write_fields_union, (left_id_L ∅ (∪)).
Qed.

(** A pass started on a table [d] gives, key by key, the rows of the same
    pass started on the empty table laid over the rows of [d]. *)
Lemma scan_merge metric lines : ∀ (d d0 dd : Table) st,
  (∀ k, tlookup dd k = merge_row (tlookup d0 k) (tlookup d k)) →
  ∀ k, tlookup (scan metric (dd, st) lines).1 k
       = merge_row (tlookup (scan metric (d0, st) lines).1 k) (tlookup d k).
Proof.
  induction lines as [|line lines IH]; intros d d0 dd st H; [done|].
  rewrite !scan_cons, !scan_step_unfold.
  destruct (complete _) as [[[[w p] v] l]|]; apply IH; [|done].
  by apply commit_merge.
Qed.

Lemma run_pass_merge metric (d : Table) log k :
  tlookup (run_pass metric d log) k
  = merge_row (tlookup (run_pass metric [] log) k) (tlookup d k).
Proof. apply (scan_merge metric _ d [] d). done. Qed.

Lemma write_fields_family metric w p v l r :
  r = ∅ ∨ family_row metric w r →
  family_row metric w (write_fields metric w p v l r).
Proof.
  intros Hr. split_and!.
  - apply write_fields_workload.
  - intros sys.
    pose proof (write_fields_field metric w r
      (λ s, match s with parquet => p | vortex => v | lance => l end) sys)
      as H.
    simpl in H. by rewrite H.
  - intros f Hw Hf. rewrite write_fields_other by done.
    destruct Hr as [->|(_ & _ & Hr)]; [done|by apply Hr].
Qed.

Lemma commit_family metric (d : Table) w p v l :
  (∀ k r, tlookup d k = Some r → family_row metric k r) →
  ∀ k r, tlookup (commit metric d w p v l) k = Some r → family_row metric k r.
Proof.
  intros H k r. rewrite tlookup_commit.
  destruct (decide (w = k)) as [<-|]; [|apply H].
  intros [= <-]. apply write_fields_family.
  destruct (tlookup d w) as [r0|] eqn:E; [right; by apply H|by left].
Qed.

Lemma scan_family metric lines : ∀ (d : Table) st,
  (∀ k r, tlookup d k = Some r → family_row metric k r) →
  ∀ k r, tlookup (scan metric (d, st) lines).1 k = Some r →
         family_row metric k r.
Proof.
  induction lines as [|line lines IH]; intros d st H; [done|].
  rewrite scan_cons, scan_step_unfold.
  destruct (complete _) as [[[[w p] v] l]|]; apply IH; [|done].
  by apply commit_family.
Qed.

Lemma run_pass_family metric log k r :
  tlookup (run_pass metric [] log) k = Some r → family_row metric k r.
Proof. apply scan_family. done. Qed.

Lemma add_key_NoDup (keys : list string) k : NoDup keys → NoDup (add_key keys k).
Proof.
  intros H. unfold add_key. case_bool_decide; [done|].
  apply NoDup_app. split_and!; [done| |apply NoDup_singleton].
  intros x Hx ->%list_elem_of_singleton. done.
Qed.

Lemma scan_NoDup metric lines : ∀ (d : Table) st,
  NoDup d.*1 → NoDup (scan metric (d, st) lines).1.*1.
Proof.
  induction lines as [|line lines IH]; intros d st H; [done|].
  rewrite scan_cons, scan_step_unfold.
  destruct (complete _) as [[[[w p] v] l]|]; apply IH; [|done].
  rewrite keys_commit. by apply add_key_NoDup.
Qed.

Lemma result_table_NoDup compress_log scan_log :
  NoDup (result_table compress_log scan_log).*1.
Proof. do 2 apply scan_NoDup. constructor. Qed.

Lemma field_families sys sys' : field SIZE sys ≠ field SCAN_TIME sys'.
Proof. by destruct sys, sys'. Qed.

Lemma field_not_workload metric sys : field metric sys ≠ "workload".
Proof. by destruct metric, sys. Qed.

(** C3: the table left by the two passes has one row per workload. For a
    workload committed by the size pass only the row is the one of the
    size pass, with the three size fields and no scan-time field; for a
    workload committed by the scan-time pass only it is the row of that
    pass, with the three scan-time fields and no size field; for a
    workload committed by both it carries the size fields of the one and
    the scan-time fields of the other; a workload committed by neither
    has no row. An absent field is a key the row does not have. *)
Theorem C3_two_pass_merge (compress_log scan_log w : string) :
  let sizes := run_pass SIZE [] compress_log in
  let times := run_pass SCAN_TIME [] scan_log in
  let merged := result_table compress_log scan_log in
  NoDup merged.*1
  ∧ match tlookup sizes w, tlookup times w with
    | Some ra, None =>
        tlookup merged w = Some ra
        ∧ ra !! "workload" = Some w
        ∧ ∀ sys, is_Some (ra !! field SIZE sys)
                 ∧ ra !! field SCAN_TIME sys = None
    | None, Some rb =>
        tlookup merged w = Some rb
        ∧ rb !! "workload" = Some w
        ∧ ∀ sys, rb !! field SIZE sys = None
                 ∧ is_Some (rb !! field SCAN_TIME sys)
    | Some ra, Some rb =>
        ∃ r, tlookup merged w = Some r
             ∧ r !! "workload" = Some w
             ∧ ∀ sys, is_Some (r !! field SIZE sys)
                      ∧ r !! field SIZE sys = ra !! field SIZE sys
                      ∧ is_Some (r !! field SCAN_TIME sys)
                      ∧ r !! field SCAN_TIME sys = rb !! field SCAN_TIME sys
    | None, None => tlookup merged w = None
    end.
Proof.
  intros sizes times merged. split; [apply result_table_NoDup|].
  assert (Hm : tlookup merged w
               = merge_row (tlookup times w) (tlookup sizes w))
    by apply run_pass_merge.
  pose proof (run_pass_family SIZE compress_log w) as Ha.
  pose proof (run_pass_family SCAN_TIME scan_log w) as Hb.
  fold sizes in Ha. fold times in Hb.
  destruct (tlookup sizes w) as [ra|], (tlookup times w) as [rb|];
    simpl in Hm.
  - destruct (Ha ra eq_refl) as (Haw & Haf & Hao).
    destruct (Hb rb eq_refl) as (Hbw & Hbf & Hbo).
    exists (rb ∪ ra). split_and!; [done|by apply lookup_union_Some_l|].
    intros sys.
    assert (Hnone : rb !! field SIZE sys = None).
    { apply Hbo; [apply field_not_workload|].
      intros sys'. apply field_families. }
    rewrite (lookup_union_r rb ra _ Hnone).
    destruct (Hbf sys) as [x Hx].
    rewrite (lookup_union_Some_l rb ra _ _ Hx), Hx. by split_and!.
  - destruct (Ha ra eq_refl) as (Haw & Haf & Hao).
    split_and!; [done|done|]. intros sys. split; [done|].
    apply Hao; [apply field_not_workload|].
    intros sys'. apply not_eq_sym, field_families.
  - destruct (Hb rb eq_refl) as (Hbw & Hbf & Hbo).
    rewrite (right_id_L ∅ (∪)) in Hm.
    split_and!; [done|done|]. intros sys. split; [|done].
    apply Hbo; [apply field_not_workload|].
    intros sys'. apply field_families.
  - done.
Qed.

(** ** What the exporter is given *)

Lemma word_not_special c : is_word c = true → is_special c = false.
Proof. destruct c as [[] [] [] [] [] [] [] []]; vm_compute; done. Qed.

Lemma decimal_not_special c :
  cset_mem (CUnion CDigit (CChar "."%char)) c = true → is_special c = false.
Proof. destruct c as [[] [] [] [] [] [] [] []]; vm_compute; done. Qed.

Lemma all_chars_plain (P : ascii → bool) s :
  (∀ c, P c = true → is_special c = false) →
  all_chars P s = true → plain s.
Proof.
  intros HP. unfold plain. induction s as [|c s IH]; simpl; [done|].
  intros [Hc Hs]%andb_true_iff. by rewrite (HP c Hc), IH.
Qed.

Lemma workload_plain line w : search workload_pattern line = Some w → plain w.
Proof.
  intros H. apply workload_capture in H as [_ H].
  by apply (all_chars_plain is_word), H; apply word_not_special.
Qed.

Lemma metric_plain metric sys line x :
  search (pattern_of metric sys) line = Some x → plain x.
Proof.
  intros H. apply metric_capture in H as [_ H].
  eapply all_chars_plain; [apply decimal_not_special|done].
Qed.

Lemma truthy_Some o x : truthy o = Some x → o = Some x.
Proof. destruct o as [[|c s]|]; simpl; congruence. Qed.

Lemma complete_Some_inv st w p v l :
  complete st = Some (w, p, v, l) →
  st = mkState (Some w) (Some p) (Some v) (Some l).
Proof.
  destruct st as [cw cp cv cl]. unfold complete. simpl.
  destruct (truthy cw) as [w'|] eqn:Ew; [|done].
  destruct (truthy cp) as [p'|] eqn:Ep; [|done].
  destruct (truthy cv) as [v'|] eqn:Ev; [|done].
  destruct (truthy cl) as [l'|] eqn:El; [|done].
  simpl. intros [= -> -> -> ->].
  by rewrite (truthy_Some _ _ Ew), (truthy_Some _ _ Ep),
    (truthy_Some _ _ Ev), (truthy_Some _ _ El).
Qed.

(** An invariant of the rows, carried through a pass: [Q] holds of every
    captured text and [P] of every row. *)
Lemma scan_invariant metric (Q : string → Prop) (P : string → Row → Prop) :
  (∀ l w, search workload_pattern l = Some w → Q w) →
  (∀ sys l x, search (pattern_of metric sys) l = Some x → Q x) →
  (∀ w p v l r, Q w → Q p → Q v → Q l → r = ∅ ∨ P w r →
                P w (write_fields metric w p v l r)) →
  ∀ lines (d : Table) st,
    slots_all Q st →
    (∀ k r, tlookup d k = Some r → P k r) →
    ∀ k r, tlookup (scan metric (d, st) lines).1 k = Some r → P k r.
Proof.
  intros HQw HQs HP.
  induction lines as [|line lines IH]; intros d st Hst Hd; [done|].
  rewrite scan_cons, scan_step_unfold.
  pose proof (update_slots_all metric Q st line HQw HQs Hst) as Hst'.
  destruct (complete _) as [[[[w p] v] l]|] eqn:E; apply IH; try done.
  - split; [done|]. by intros [].
  - apply complete_Some_inv in E. rewrite E in Hst'.
    destruct Hst' as [Hw Hs].
    intros k r. rewrite tlookup_commit.
    destruct (decide (w = k)) as [<-|]; [|apply Hd].
    intros [= <-]. apply HP.
    + by apply Hw.
    + by apply (Hs parquet).
    + by apply (Hs vortex).
    + by apply (Hs lance).
    + destruct (tlookup d w) as [r0|] eqn:E0; [right; by apply Hd|by left].
Qed.

Lemma field_in_fieldnames metric sys : field metric sys ∈ fieldnames.
Proof.
  destruct metric, sys; apply (bool_decide_unpack _); vm_compute; reflexivity.
Qed.

Lemma write_fields_row_ok metric w p v l r :
  plain w → plain p → plain v → plain l →
  r = ∅ ∨ (r !! "workload" = Some w ∧ row_ok r) →
  write_fields metric w p v l r !! "workload" = Some w
  ∧ row_ok (write_fields metric w p v l r).
Proof.
  intros Hw Hp Hv Hl Hr. split; [apply write_fields_workload|].
  assert (Hok : row_ok r).
  { destruct Hr as [->|[_ ?]]; [apply map_Forall_empty|done]. }
  unfold write_fields, row_ok.
  repeat (apply map_Forall_insert_2;
          [split; [first [apply field_in_fieldnames
                         |apply (bool_decide_unpack _); vm_compute; reflexivity]
                  |done] |]).
  done.
Qed.

Lemma result_table_rows compress_log scan_log k r :
  tlookup (result_table compress_log scan_log) k = Some r →
  r !! "workload" = Some k ∧ row_ok r.
Proof.
  unfold result_table, run_pass, process_log.
  apply (scan_invariant SCAN_TIME plain
           (λ k r, r !! "workload" = Some k ∧ row_ok r)).
  - apply workload_plain.
  - apply metric_plain.
  - apply write_fields_row_ok.
  - split; [done|]. by intros [].
  - apply (scan_invariant SIZE plain
             (λ k r, r !! "workload" = Some k ∧ row_ok r)).
    + apply workload_plain.
    + apply metric_plain.
    + apply write_fields_row_ok.
    + split; [done|]. by intros [].
    + done.
Qed.

Lemma tlookup_elem (d : Table) k r :
  NoDup d.*1 → (k, r) ∈ d → tlookup d k = Some r.
Proof.
  induction d as [|[k0 r0] d IH]; [by intros _ ?%elem_of_nil|].
  rewrite fmap_cons. cbn [fst tlookup]. intros [Hk0 Hnd]%NoDup_cons.
  intros [[= -> ->]|Hin]%elem_of_cons.
  - by rewrite decide_True.
  - rewrite decide_False; [by apply IH|].
    intros ->. apply Hk0. apply list_elem_of_fmap. by exists (k, r).
Qed.

Lemma table_Forall (P : string → Row → Prop) (d : Table) :
  NoDup d.*1 →
  (∀ k r, tlookup d k = Some r → P k r) →
  Forall (λ kr, P kr.1 kr.2) d.
Proof.
  intros Hnd H. apply Forall_forall. intros [k r] Hin. simpl.
  by apply H, tlookup_elem.
Qed.

(** ** The text the exporter writes *)

Lemma cell_plain (r : Row) f : row_ok r → csv_field (default "" (r !! f)) = default "" (r !! f).
Proof.
  intros Hr. unfold csv_field.
  destruct (r !! f) as [x|] eqn:E; simpl; [|done].
  destruct (Hr f x E) as [_ Hx]. unfold plain in Hx. by rewrite Hx.
Qed.

Lemma dict_writerow_ok (r : Row) :
  row_ok r → dict_writerow r = Some (record_line r).
Proof.
  intros Hr. unfold dict_writerow, dict_to_list.
  rewrite bool_decide_true.
  2:{ intros k x Hk. by destruct (Hr k x Hk). }
  simpl. f_equal. unfold record_line, cells, writerow, fieldnames.
  cbn [fmap list_fmap]. rewrite !cell_plain by done.
  by destruct (default "" (r !! "workload")).
Qed.

Lemma mapM_dict_writerow (d : Table) :
  Forall (λ kr, row_ok kr.2) d →
  mapM (λ kr, dict_writerow kr.2) d = Some ((λ kr, record_line kr.2) <$> d).
Proof.
  intros H. apply mapM_Some. induction H as [|[k r] d Hr _ IH]; simpl.
  - constructor.
  - constructor; [by apply dict_writerow_ok|done].
Qed.

Lemma write_csv_ok (d : Table) :
  Forall (λ kr, row_ok kr.2) d →
  write_csv d
  = Some ((csv_header +:+ crlf)
          +:+ foldr String.app "" ((λ kr, record_line kr.2) <$> d)).
Proof.
  intros H. unfold write_csv. rewrite (mapM_dict_writerow d H). simpl.
  do 2 f_equal.
Qed.

(** ** The order of the rows *)

Lemma scan_keys metric lines : ∀ (d : Table) st,
  (scan metric (d, st) lines).1.*1
  = fold_left add_key (committed metric st lines) d.*1.
Proof.
  induction lines as [|line lines IH]; intros d st; [done|].
  rewrite scan_cons. cbn [committed]. rewrite !scan_step_unfold.
  destruct (complete _) as [[[[w p] v] l]|]; cbn [fst snd]; rewrite IH.
  - by rewrite !keys_commit.
  - done.
Qed.

Lemma run_pass_scan metric (d : Table) log :
  run_pass metric d log = (scan metric (d, init) (split_newline (strip log))).1.
Proof. done. Qed.

Lemma result_table_keys compress_log scan_log :
  (result_table compress_log scan_log).*1
  = first_seen (committed SIZE init (split_newline (strip compress_log))
                ++ committed SCAN_TIME init (split_newline (strip scan_log))).
Proof.
  unfold result_table, first_seen.
  by rewrite fold_left_app, !run_pass_scan, !scan_keys.
Qed.

(** C5: the file written by [get_result_csv] starts with the header line
    workload,parquet_size,vortex_size,lance_size,lance_scan_time,
    parquet_scan_time,vortex_scan_time and continues with one line per
    row of the table, in the order of the table; the line of a row is its
    seven cells in the order of the header, joined by commas, the cell of
    a field the row lacks being the empty string. The rows are keyed by
    distinct workloads, in the order in which the workloads were first
    committed over the size pass and then the scan-time pass, and the
    first cell of a row is its workload. *)
Theorem C5_csv_layout (compress_log scan_log : string) :
  let table := result_table compress_log scan_log in
  get_result_csv compress_log scan_log
  = Some ((csv_header +:+ crlf)
          +:+ foldr String.app ""
                ((λ kr, join "," ((λ f, default "" (kr.2 !! f)) <$> fieldnames)
                        +:+ crlf) <$> table))
  ∧ table.*1
    = first_seen (committed SIZE init (split_newline (strip compress_log))
                  ++ committed SCAN_TIME init (split_newline (strip scan_log)))
  ∧ NoDup table.*1
  ∧ Forall (λ kr, kr.2 !! "workload" = Some kr.1) table.
Proof.
  intros table.
  pose proof (result_table_NoDup compress_log scan_log) as Hnd.
  pose proof (table_Forall (λ k r, r !! "workload" = Some k ∧ row_ok r)
                table Hnd (result_table_rows compress_log scan_log)) as Hall.
  split_and!.
  - unfold get_result_csv. apply write_csv_ok.
    eapply Forall_impl; [exact Hall|]. by intros kr [_ ?].
  - apply result_table_keys.
  - done.
  - eapply Forall_impl; [exact Hall|]. by intros kr [? _].
Qed.

Example two_logs_csv :
  get_result_csv demo_size_log demo_scan_log
  = Some (csv_header +:+ crlf
          +:+ "core,12.5,9.25,14,,," +:+ crlf
          +:+ "lineitem,,,,4,3.5,2.25" +:+ crlf).
Proof. vm_compute. reflexivity. Qed.

(** ** Reading back what the writer wrote *)

Lemma app_cons c (s t : string) : String c s +:+ t = String c (s +:+ t).
Proof. done. Qed.

Lemma app_empty_l (s : string) : "" +:+ s = s.
Proof. done. Qed.

Lemma app_empty_r (s : string) : s +:+ "" = s.
Proof. induction s as [|c s IH]; [done|]. by rewrite app_cons, IH. Qed.

Lemma string_app_assoc (s t u : string) : (s +:+ t) +:+ u = s +:+ (t +:+ u).
Proof. induction s as [|c s IH]; [done|]. by rewrite !app_cons, IH. Qed.

Lemma snoc_app (s t : string) c : snoc s c +:+ t = s +:+ String c t.
Proof. unfold snoc. by rewrite string_app_assoc. Qed.

Lemma feed_all_app rd (s t : string) :
  feed_all rd (s +:+ t) = feed_all (feed_all rd s) t.
Proof.
  revert rd. induction s as [|c s IH]; intros rd; [done|].
  rewrite app_cons. simpl. apply IH.
Qed.

Lemma is_special_false c :
  is_special c = false →
  c ≠ comma ∧ c ≠ dquote ∧ c ≠ carriage_return ∧ c ≠ newline.
Proof.
  unfold is_special. rewrite !orb_false_iff, !bool_decide_eq_false.
  by intros [[[? ?] ?] ?].
Qed.

(** An unquoted cell, once begun, is read character by character. *)
Lemma feed_plain (s : string) : ∀ rd,
  plain s → mode rd = InField →
  feed_all rd s = mkReader (records rd) (fields rd) (cur rd +:+ s) InField.
Proof.
  unfold plain. induction s as [|c s IH]; intros rd Hs Hm.
  - rewrite app_empty_r. destruct rd; simpl in *; by subst.
  - simpl in Hs. apply orb_false_iff in Hs as [Hc Hs].
    apply is_special_false in Hc as (? & ? & ? & ?).
    simpl. unfold feed. rewrite Hm.
    rewrite !bool_decide_false by done.
    rewrite IH by done. simpl. by rewrite snoc_app.
Qed.

Lemma feed_plain_start (s : string) rd :
  plain s → at_start rd →
  feed_all rd s =
    match s with
    | EmptyString => rd
    | _ => mkReader (records rd) (fields rd) s InField
    end.
Proof.
  intros Hs [Hcur Hmode]. destruct s as [|c s]; [done|].
  pose proof Hs as Hs'. unfold plain in Hs'. simpl in Hs'.
  apply orb_false_iff in Hs' as [Hc Hs'].
  apply is_special_false in Hc as (? & ? & ? & ?).
  simpl.
  assert (Hfeed : feed rd c = add_char rd c InField).
  { unfold feed, start_record, start_field.
    destruct Hmode as [-> | ->]; by rewrite !bool_decide_false. }
  rewrite Hfeed, feed_plain by done.
  simpl. unfold snoc. by rewrite Hcur.
Qed.

(** Inside quotes a doubled quote gives one quote and everything else is
    kept. *)
Lemma feed_escape (s : string) : ∀ rd,
  mode rd = InQuoted →
  feed_all rd (escape s)
  = mkReader (records rd) (fields rd) (cur rd +:+ s) InQuoted.
Proof.
  induction s as [|c s IH]; intros rd Hm.
  - rewrite app_empty_r. destruct rd; simpl in *; by subst.
  - simpl. case_bool_decide as Hc.
    + subst c. simpl.
      assert (H1 : feed rd dquote = set_mode rd QuoteInQuoted)
        by (unfold feed; by rewrite Hm).
      assert (H2 : feed (set_mode rd QuoteInQuoted) dquote
                   = add_char (set_mode rd QuoteInQuoted) dquote InQuoted)
        by done.
      rewrite H1, H2, IH by done. simpl. by rewrite snoc_app.
    + simpl. unfold feed. rewrite Hm, bool_decide_false by done.
      rewrite IH by done. simpl. by rewrite snoc_app.
Qed.

Lemma feed_quoted (s : string) rd :
  at_start rd →
  feed_all rd (String dquote (escape s +:+ String dquote ""))
  = mkReader (records rd) (fields rd) s QuoteInQuoted.
Proof.
  intros [Hcur Hmode]. simpl.
  assert (Hfeed : feed rd dquote = set_mode rd InQuoted).
  { unfold feed, start_record, start_field.
    destruct Hmode as [-> | ->]; done. }
  rewrite Hfeed, feed_all_app, feed_escape by done.
  simpl. by rewrite Hcur.
Qed.

(** After a cell the reader holds its text and is in a mode where a comma
    or a line terminator closes the cell; it is still at the start only
    for an empty unquoted cell. *)
Lemma feed_csv_field (s : string) rd :
  at_start rd →
  ∃ m, feed_all rd (csv_field s) = mkReader (records rd) (fields rd) s m
       ∧ (m = InField ∨ m = QuoteInQuoted
          ∨ (m = mode rd ∧ s = EmptyString ∧ needs_quote s = false)).
Proof.
  intros Hst. unfold csv_field. destruct (needs_quote s) eqn:Hq.
  - exists QuoteInQuoted. by rewrite feed_quoted; auto.
  - rewrite feed_plain_start by done. destruct s as [|c s].
    + exists (mode rd). destruct Hst as [Hcur _].
      split; [destruct rd; simpl in *; by subst|auto].
    + exists InField. auto.
Qed.

Lemma feed_comma rd recs flds (x : string) m :
  rd = mkReader recs flds x m →
  m = InField ∨ m = QuoteInQuoted ∨ m = StartField ∨ m = StartRecord →
  feed rd comma = mkReader recs (flds ++ [x]) "" StartField.
Proof. intros -> [->|[->|[->| ->]]]; done. Qed.

Lemma feed_crlf rd recs flds (x : string) m :
  rd = mkReader recs flds x m →
  m = InField ∨ m = QuoteInQuoted ∨ m = StartField →
  feed_all rd crlf = mkReader (recs ++ [flds ++ [x]]) [] "" StartRecord.
Proof. intros -> [->|[->| ->]]; done. Qed.

(** The cells of a record, then the line terminator. *)
Lemma feed_cells (cs : list string) : ∀ rd,
  at_start rd →
  (mode rd = StartRecord → cs ≠ [""]) →
  cs ≠ [] →
  feed_all rd (join "," (csv_field <$> cs) +:+ crlf)
  = mkReader (records rd ++ [fields rd ++ cs]) [] "" StartRecord.
Proof.
  induction cs as [|x cs IH]; intros rd Hst Hrec Hne; [done|].
  destruct (feed_csv_field x rd Hst) as (m & Hfeed & Hm).
  destruct cs as [|y cs].
  - simpl. rewrite feed_all_app, Hfeed.
    apply (feed_crlf _ _ _ _ m eq_refl).
    destruct Hm as [->|[->|(-> & -> & _)]]; auto.
    destruct Hst as [_ [Hmode|Hmode]]; [|auto].
    by destruct (Hrec Hmode eq_refl).
  - change (join "," (csv_field <$> x :: y :: cs))
      with (csv_field x +:+ "," +:+ join "," (csv_field <$> y :: cs)).
    rewrite !string_app_assoc, feed_all_app, Hfeed.
    change ("," +:+ ?t) with (String comma t). cbn [feed_all].
    rewrite (feed_comma _ _ _ x m eq_refl).
    2:{ destruct Hm as [->|[->|(-> & _ & _)]]; auto.
        destruct Hst as [_ [->| ->]]; auto. }
    rewrite IH; [|by split; auto|done|done].
    simpl. by rewrite <-app_assoc.
Qed.

Lemma feed_writerow (cs : list string) rd :
  cs ≠ [] → at_start rd → mode rd = StartRecord →
  feed_all rd (writerow cs)
  = mkReader (records rd ++ [fields rd ++ cs]) [] "" StartRecord.
Proof.
  intros Hne Hst Hmode.
  destruct (decide (cs = [""])) as [->|Hcs].
  - destruct rd as [recs flds c m]. destruct Hst as [Hcur _].
    simpl in *. by subst.
  - assert (Hw : writerow cs = join "," (csv_field <$> cs) +:+ crlf).
    { by destruct cs as [|[|c x] [|y cs]]. }
    rewrite Hw. by apply feed_cells.
Qed.

Lemma feed_records (css : list (list string)) : ∀ rd,
  Forall (λ cs, cs ≠ []) css →
  cur rd = "" → mode rd = StartRecord → fields rd = [] →
  feed_all rd (foldr String.app "" (writerow <$> css))
  = mkReader (records rd ++ css) [] "" StartRecord.
Proof.
  induction css as [|cs css IH]; intros rd Hall Hcur Hmode Hflds.
  - simpl. rewrite app_nil_r. destruct rd; simpl in *; by subst.
  - apply Forall_cons in Hall as [Hcs Hall].
    simpl. rewrite feed_all_app, feed_writerow by (done || by split; auto).
    rewrite IH by done. simpl. by rewrite Hflds, <-app_assoc.
Qed.

Lemma parse_written (header : list string) (css : list (list string)) :
  header ≠ [] → Forall (λ cs, cs ≠ []) css →
  parse_csv (writerow header +:+ foldr String.app "" (writerow <$> css))
  = header :: css.
Proof.
  intros Hh Hall. unfold parse_csv.
  rewrite feed_all_app, feed_writerow by (done || by split; auto).
  by rewrite feed_records.
Qed.

(** ** Cells and fields *)

Lemma fieldnames_NoDup : NoDup fieldnames.
Proof. apply (bool_decide_unpack _). vm_compute. reflexivity. Qed.

Lemma to_row_lookup (names : list string) (g : string → string) f x :
  NoDup names →
  to_row names (g <$> names) !! f = Some x ↔ f ∈ names ∧ g f = x ∧ x ≠ "".
Proof.
  intros Hnd. unfold to_row.
  assert (Hzip : zip names (g <$> names) = (λ n, (n, g n)) <$> names).
  { clear Hnd. induction names as [|n names IH]; simpl; by f_equal. }
  rewrite Hzip, <-elem_of_list_to_map.
  - rewrite list_elem_of_filter, list_elem_of_fmap. simpl. split.
    + by intros (Hx & n & [= -> ->] & Hin).
    + intros (Hin & <- & Hx). split; [done|]. by exists f.
  - eapply sublist_NoDup; [exact Hnd|].
    etrans; [apply fmap_sublist, sublist_filter|].
    rewrite <-list_fmap_compose.
    assert (Hid : (fst ∘ (λ n : string, (n, g n))) <$> names = names).
    { clear. induction names as [|n names IH]; simpl; by f_equal. }
    by rewrite Hid.
Qed.

Lemma to_row_cells (r : Row) :
  map_Forall (λ k _, k ∈ fieldnames) r →
  to_row fieldnames (cells r) = drop_empty r.
Proof.
  intros Hkeys. unfold cells, drop_empty.
  apply map_eq. intros f. apply option_eq. intros x.
  rewrite to_row_lookup by apply fieldnames_NoDup.
  rewrite map_lookup_filter_Some. simpl. split.
  - intros (_ & Hx & Hne). split; [|done].
    destruct (r !! f); simpl in *; congruence.
  - intros [Hf Hx]. split_and!; [by eapply Hkeys|by rewrite Hf|done].
Qed.

Lemma drop_empty_lookup (r : Row) f :
  default "" (drop_empty r !! f) = default "" (r !! f).
Proof.
  unfold drop_empty. destruct (r !! f) as [x|] eqn:E; simpl.
  - destruct (decide (x = "")) as [->|Hx].
    + destruct (filter _ r !! f) as [y|] eqn:Ey; [|done].
      apply map_lookup_filter_Some in Ey as [Ey Hy]. simpl in *. congruence.
    + by rewrite (map_lookup_filter_Some_2 _ r f x E Hx).
  - by rewrite (map_lookup_filter_None_2 _ r f) by auto.
Qed.

Lemma dict_writerow_keys (r : Row) :
  map_Forall (λ k _, k ∈ fieldnames) r →
  dict_writerow r = Some (writerow (cells r)).
Proof.
  intros H. unfold dict_writerow, dict_to_list.
  by rewrite bool_decide_true.
Qed.

Lemma write_csv_keys (data : Table) :
  Forall (λ kr, map_Forall (λ k _, k ∈ fieldnames) kr.2) data →
  write_csv data
  = Some (writerow fieldnames
          +:+ foldr String.app "" (writerow <$> (cells <$> data.*2))).
Proof.
  intros H. unfold write_csv.
  assert (Hm : mapM (λ kr, dict_writerow kr.2) data
               = Some (writerow <$> (cells <$> data.*2))).
  { apply mapM_Some. induction H as [|[k r] d Hr _ IH]; simpl.
    - constructor.
    - constructor; [by apply dict_writerow_keys|done]. }
  by rewrite Hm.
Qed.

(** C6: a table whose rows have no key outside the seven field names is
    exported without error, and reading the written text back gives the
    rows in the same order, each with the same text under every field
    name, a field that is absent and a field that holds the empty string
    both reading as the empty cell; the rows read back are the rows
    written, less their empty-valued fields. *)
Theorem C6_csv_round_trip (data : Table) :
  Forall (λ kr, map_Forall (λ k _, k ∈ fieldnames) kr.2) data →
  ∃ text,
    write_csv data = Some text
    ∧ read_csv text = drop_empty <$> data.*2
    ∧ Forall2 (λ r r', ∀ f, default "" (r' !! f) = default "" (r !! f))
        data.*2 (read_csv text).
Proof.
  intros Hkeys. eexists. split; [by apply write_csv_keys|].
  assert (Hread :
    read_csv (writerow fieldnames
              +:+ foldr String.app "" (writerow <$> (cells <$> data.*2)))
    = drop_empty <$> data.*2).
  { unfold read_csv. rewrite parse_written.
    - rewrite <-list_fmap_compose.
      induction Hkeys as [|[k r] d Hr _ IH]; [done|].
      rewrite !fmap_cons. cbn [snd compose] in *.
      by rewrite IH, to_row_cells.
    - done.
    - apply Forall_fmap, Forall_forall. by intros r _. }
  split; [done|]. rewrite Hread.
  apply Forall2_fmap_r, Forall_Forall2_diag, Forall_forall.
  intros r _ f. apply drop_empty_lookup.
Qed.

Lemma C6_csv_round_trip_witness :
  ∃ text,
    write_csv demo_rows = Some text
    ∧ read_csv text = drop_empty <$> demo_rows.*2
    ∧ Forall2 (λ r r', ∀ f, default "" (r' !! f) = default "" (r !! f))
        demo_rows.*2 (read_csv text).
Proof.
  apply (C6_csv_round_trip demo_rows).
  apply (bool_decide_unpack _). vm_compute. reflexivity.
Defined.

Example demo_rows_csv :
  write_csv demo_rows
  = Some (csv_header +:+ crlf
          +:+ "core,12.5,,,,," +:+ crlf
          +:+ String dquote ("a,b" +:+ String dquote
                (",," +:+ String dquote (String dquote (String dquote
                   ("x" +:+ String dquote ("," +:+ String dquote
                      ("1" +:+ crlf +:+ "2" +:+ String dquote
                         (",,," +:+ crlf))))))))).
Proof. vm_compute. reflexivity. Qed.

(** * Further properties of the correlator *)

Lemma assign_None o : assign None o = o.
Proof. done. Qed.

Lemma update_irrelevant metric st line :
  relevant metric line = false →
  update (parquet_pattern metric) (vortex_pattern metric)
    (lance_pattern metric) st line = st.
Proof.
  unfold relevant. rewrite !orb_false_iff. intros [[[Hw Hp] Hv] Hl].
  unfold update.
  destruct (search workload_pattern line); [done|].
  destruct (search (parquet_pattern metric) line); [done|].
  destruct (search (vortex_pattern metric) line); [done|].
  destruct (search (lance_pattern metric) line); [done|].
  by destruct st.
Qed.

Lemma scan_step_complete_None metric (data : Table) st line :
  complete (scan_step metric (data, st) line).2 = None.
Proof.
  rewrite scan_step_unfold.
  destruct (complete (update _ _ _ st line)) as [[[[w p] v] l]|] eqn:E;
    [reflexivity|exact E].
Qed.

Lemma scan_filter_relevant metric lines : ∀ (data : Table) st,
  complete st = None →
  scan metric (data, st) (filter (λ l, relevant metric l) lines)
  = scan metric (data, st) lines.
Proof.
  induction lines as [|line lines IH]; intros data st Hst; [done|].
  destruct (relevant metric line) eqn:E.
  - rewrite filter_cons_True by by apply Is_true_true.
    rewrite !scan_cons.
    pose proof (scan_step_complete_None metric data st line) as Hc.
    destruct (scan_step metric (data, st) line) as [d' st']. by apply IH.
  - rewrite filter_cons_False by by apply Is_true_false.
    rewrite scan_cons, scan_step_unfold, (update_irrelevant _ _ _ E), Hst.
    by apply IH.
Qed.

(** X1: lines in which none of the four patterns matches do not count:
    a pass gives the same table and the same final state on a log and
    on that log with those lines removed. *)
Theorem X1_unmatched_lines_ignored
    (metric : Metric) (data : Table) (lines : list string) :
  scan metric (data, init) (filter (λ l, relevant metric l) lines)
  = scan metric (data, init) lines.
Proof. by apply scan_filter_relevant. Qed.

(** A variable that no line of the log sets stays null, and nothing is
    committed. *)
Lemma never_filled (get : State → option string) pp vp lp metric :
  (∀ st, get st = None → complete st = None) →
  ∀ lines,
    Forall (λ l, ∀ st, get st = None → get (update pp vp lp st l) = None)
      lines →
    ∀ (data : Table) st, get st = None →
      (process_lines pp vp lp metric (data, st) lines).1 = data.
Proof.
  intros Hget lines Hall. induction Hall as [|l lines Hl _ IH];
    intros data st Hst; [done|].
  unfold process_lines. simpl. unfold step at 2. simpl.
  rewrite (Hget _ (Hl st Hst)). apply IH. by apply Hl.
Qed.

Lemma complete_None_workload st : current_workload st = None → complete st = None.
Proof. intros H. unfold complete. by rewrite H. Qed.

Lemma complete_None_slot st sys : slot st sys = None → complete st = None.
Proof.
  intros H. apply complete_None. by apply (all_non_null_slot_None _ sys).
Qed.

(** X2: if one of the four patterns handed to [process_log] matches no
    line of the log (the workload pattern, or the pattern of one system),
    no row is committed: the table comes back unchanged. *)
Theorem X2_pattern_never_matched
    (data : Table) (log_data : string) (pp vp lp : Pattern) (metric : Metric) :
  Forall (λ l, search workload_pattern l = None)
    (split_newline (strip log_data))
  ∨ Forall (λ l, search pp l = None) (split_newline (strip log_data))
  ∨ Forall (λ l, search vp l = None) (split_newline (strip log_data))
  ∨ Forall (λ l, search lp l = None) (split_newline (strip log_data)) →
  process_log data log_data pp vp lp metric = data.
Proof.
  unfold process_log. intros [H|[H|[H|H]]].
  - apply (never_filled current_workload); [apply complete_None_workload| |done].
    eapply Forall_impl; [exact H|]. intros l Hl st Hst.
    unfold update. simpl. by rewrite Hl.
  - apply (never_filled (λ st, slot st parquet));
      [intros st; apply complete_None_slot| |done].
    eapply Forall_impl; [exact H|]. intros l Hl st Hst.
    unfold update. simpl. by rewrite Hl.
  - apply (never_filled (λ st, slot st vortex));
      [intros st; apply complete_None_slot| |done].
    eapply Forall_impl; [exact H|]. intros l Hl st Hst.
    unfold update. simpl. by rewrite Hl.
  - apply (never_filled (λ st, slot st lance));
      [intros st; apply complete_None_slot| |done].
    eapply Forall_impl; [exact H|]. intros l Hl st Hst.
    unfold update. simpl. by rewrite Hl.
Qed.

Lemma X2_pattern_never_matched_witness :
  process_log [] demo_size_log (parquet_pattern SCAN_TIME)
    (vortex_pattern SIZE) (lance_pattern SIZE) SIZE = [].
Proof.
  apply X2_pattern_never_matched. right. left.
  apply (bool_decide_unpack _). vm_compute. reflexivity.
Defined.

(** ** The two passes, in either order *)

Lemma family_keys metric w (r : Row) f x :
  family_row metric w r → r !! f = Some x →
  f = "workload" ∨ ∃ sys, f = field metric sys.
Proof.
  intros (_ & _ & Hother) Hf.
  destruct (decide (f = "workload")) as [|Hw]; [by left|]. right.
  destruct (decide (f = field metric parquet)); [by exists parquet|].
  destruct (decide (f = field metric vortex)); [by exists vortex|].
  destruct (decide (f = field metric lance)); [by exists lance|].
  rewrite Hother in Hf; [done|done|]. by intros [].
Qed.

Lemma family_union_comm w (ra rb : gmap string string) :
  family_row SIZE w ra → family_row SCAN_TIME w rb → rb ∪ ra = ra ∪ rb.
Proof.
  intros Ha Hb. apply map_eq. intros f.
  assert (Hxy : ∀ x y, ra !! f = Some x → rb !! f = Some y → x = y).
  { intros x y Ea Eb.
    destruct (family_keys _ _ _ _ _ Ha Ea) as [->|[sys ->]].
    - destruct Ha as [Ha _], Hb as [Hb _]. congruence.
    - destruct (family_keys _ _ _ _ _ Hb Eb) as [Hw|[sys' Hf]].
      + by destruct (field_not_workload SIZE sys).
      + by destruct (field_families sys sys'). }
  rewrite !lookup_union.
  destruct (ra !! f) as [x|], (rb !! f) as [y|]; simpl; try done.
  by rewrite (Hxy x y eq_refl eq_refl).
Qed.

(** X3: the order of the two passes does not matter for the rows: the
    size pass followed by the scan-time pass, as the script runs them,
    and the scan-time pass followed by the size pass give the same row
    for every workload (only the order of the rows may differ), and
    both tables have one row per workload. *)
Theorem X3_passes_commute (compress_log scan_log k : string) :
  tlookup (run_pass SCAN_TIME (run_pass SIZE [] compress_log) scan_log) k
  = tlookup (run_pass SIZE (run_pass SCAN_TIME [] scan_log) compress_log) k
  ∧ NoDup (run_pass SCAN_TIME (run_pass SIZE [] compress_log) scan_log).*1
  ∧ NoDup (run_pass SIZE (run_pass SCAN_TIME [] scan_log) compress_log).*1.
Proof.
  split; [|split; do 2 apply scan_NoDup; constructor].
  rewrite (run_pass_merge SCAN_TIME (run_pass SIZE [] compress_log)).
  rewrite (run_pass_merge SIZE (run_pass SCAN_TIME [] scan_log)).
  pose proof (run_pass_family SIZE compress_log k) as Ha.
  pose proof (run_pass_family SCAN_TIME scan_log k) as Hb.
  destruct (tlookup (run_pass SIZE [] compress_log) k) as [ra|],
    (tlookup (run_pass SCAN_TIME [] scan_log) k) as [rb|]; simpl.
  - f_equal. apply (family_union_comm k); [by apply Ha|by apply Hb].
  - by rewrite (right_id_L ∅ (∪)).
  - by rewrite (right_id_L ∅ (∪)).
  - done.
Qed.

Lemma add_key_prefix (keys : list string) k : keys `prefix_of` add_key keys k.
Proof.
  unfold add_key. case_bool_decide; [done|]. by apply prefix_app_r.
Qed.

Lemma fold_add_key_prefix (cs keys : list string) :
  keys `prefix_of` fold_left add_key cs keys.
Proof.
  revert keys. induction cs as [|c cs IH]; intros keys; [done|].
  simpl. etrans; [apply add_key_prefix|apply IH].
Qed.

(** X4: a pass keeps what the table already holds. The keys it finds
    stay at the head of the table in their order, every row it finds
    is still there afterwards, and in such a row only the workload field
    and the three fields of the pass's own metric can have changed. *)
Theorem X4_pass_keeps_rows
    (metric : Metric) (data : Table) (log_data : string) :
  data.*1 `prefix_of` (run_pass metric data log_data).*1
  ∧ ∀ k r, tlookup data k = Some r →
      ∃ r', tlookup (run_pass metric data log_data) k = Some r'
            ∧ ∀ f, f ≠ "workload" → (∀ sys, f ≠ field metric sys) →
                   r' !! f = r !! f.
Proof.
  split.
  - rewrite run_pass_scan, scan_keys. apply fold_add_key_prefix.
  - intros k r Hk. rewrite run_pass_merge, Hk.
    pose proof (run_pass_family metric log_data k) as Hf.
    destruct (tlookup (run_pass metric [] log_data) k) as [r0|]; simpl.
    + eexists. split; [done|]. intros f Hw Hs.
      destruct (Hf r0 eq_refl) as (_ & _ & Hother).
      by rewrite lookup_union_r by by apply Hother.
    + by exists r.
Qed.

(** ** Rows and headers *)

Lemma length_add_key (keys : list string) k :
  length (add_key keys k) ≤ S (length keys).
Proof.
  unfold add_key. case_bool_decide; [lia|]. rewrite length_app. simpl. lia.
Qed.

Lemma count_matches_cons p line lines :
  count_matches p (line :: lines)
  = (if is_some (search p line) then 1 else 0) + count_matches p lines.
Proof.
  unfold count_matches. destruct (is_some (search p line)) eqn:E.
  - by rewrite filter_cons_True by by apply Is_true_true.
  - by rewrite filter_cons_False by by apply Is_true_false.
Qed.

(** A commit needs the variable [get], which only the pattern [p] sets:
    the rows added are bounded by the lines [p] matches. *)
Lemma rows_bounded metric (get : State → option string) (p : Pattern) :
  (∀ st c, complete st = Some c → is_some (get st) = true) →
  (∀ st line,
     get (update (parquet_pattern metric) (vortex_pattern metric)
            (lance_pattern metric) st line)
     = assign (search p line) (get st)) →
  get init = None →
  ∀ lines (data : Table) st,
    length (scan metric (data, st) lines).1
    ≤ length data + count_matches p lines
      + (if is_some (get st) then 1 else 0).
Proof.
  intros Hc Hu Hi. induction lines as [|line lines IH]; intros data st.
  { simpl. lia. }
  rewrite scan_cons, scan_step_unfold, count_matches_cons.
  pose proof (Hu st line) as Hget.
  destruct (complete _) as [[[[w p0] v] l]|] eqn:E.
  - pose proof (Hc _ _ E) as Hsome. rewrite Hget in Hsome.
    specialize (IH (commit metric data w p0 v l) init). rewrite Hi in IH.
    pose proof (length_add_key data.*1 w) as Hlen.
    rewrite <-(keys_commit metric data w p0 v l), !length_fmap in Hlen.
    simpl in IH.
    destruct (search p line), (get st); simpl in *; try done; lia.
  - specialize (IH data (update (parquet_pattern metric)
                           (vortex_pattern metric) (lance_pattern metric)
                           st line)).
    rewrite Hget in IH.
    destruct (search p line), (get st); simpl in *; lia.
Qed.

Lemma complete_is_some st c :
  complete st = Some c →
  is_some (current_workload st) = true
  ∧ ∀ sys, is_some (slot st sys) = true.
Proof.
  destruct c as [[[w p] v] l]. intros ->%complete_Some_inv.
  split; [done|]. by intros [].
Qed.

(** X5: a pass adds at most one row per workload header of its log, and
    at most one row per measurement line of each system: the number of
    rows after the pass is bounded by the number before plus the number
    of lines the workload pattern matches, and likewise for the pattern
    of each system. *)
Theorem X5_rows_bounded_by_matches
    (metric : Metric) (data : Table) (log_data : string) :
  length (run_pass metric data log_data)
  ≤ length data
    + count_matches workload_pattern (split_newline (strip log_data))
  ∧ ∀ sys,
      length (run_pass metric data log_data)
      ≤ length data
        + count_matches (pattern_of metric sys)
            (split_newline (strip log_data)).
Proof.
  rewrite run_pass_scan. split.
  - assert (Hb := rows_bounded metric current_workload workload_pattern).
    specialize (Hb (λ st c Hc, proj1 (complete_is_some st c Hc))
                  (λ st line, eq_refl) eq_refl
                  (split_newline (strip log_data)) data init).
    simpl in Hb. lia.
  - intros sys.
    assert (Hb := rows_bounded metric (λ st, slot st sys)
                    (pattern_of metric sys)).
    specialize (Hb (λ st c Hc, proj2 (complete_is_some st c Hc) sys)).
    assert (Hu : ∀ st line,
      slot (update (parquet_pattern metric) (vortex_pattern metric)
              (lance_pattern metric) st line) sys
      = assign (search (pattern_of metric sys) line) (slot st sys))
      by by destruct sys.
    assert (Hi : slot init sys = None) by by destruct sys.
    specialize (Hb Hu Hi (split_newline (strip log_data)) data init).
    cbv beta in Hb. rewrite Hi in Hb. simpl in Hb. lia.
Qed.

(** * Further properties of the patterns *)

Section Runs.
Context {A : Type}.

Lemma mtch_lit (t s : string) (k : string → string → option A) :
  mtch (lit t) (t +:+ s) k = k t s.
Proof.
  revert k. induction t as [|c t IH]; intros k; [done|].
  rewrite app_cons. cbn [lit mtch cset_mem].
  rewrite bool_decide_true by done. by rewrite IH.
Qed.

Lemma mtch_lit_head c (t s : string) (k : string → string → option A) :
  head_char s ≠ c ∨ s = EmptyString → mtch (lit (String c t)) s k = None.
Proof.
  intros H. cbn [lit mtch cset_mem]. destruct s as [|c' s]; [done|].
  destruct H as [H|H]; [|done]. simpl in H.
  by rewrite bool_decide_false.
Qed.

Lemma plus_greedy_stops cs (rest : string) (k : string → string → option A) :
  stops cs rest = true → plus_greedy cs rest k = None.
Proof.
  destruct rest as [|c rest]; [done|]. simpl.
  by intros ->%negb_true_iff.
Qed.

(** A run of [cs] followed by something that is not in [cs]: the greedy
    [+] takes the whole run first. *)
Lemma plus_greedy_run cs (x rest : string) : ∀ (k : string → string → option A) y,
  x ≠ EmptyString → all_chars (cset_mem cs) x = true →
  stops cs rest = true →
  k x rest = Some y →
  plus_greedy cs (x +:+ rest) k = Some y.
Proof.
  induction x as [|c x IH]; intros k y Hne Hall Hstop Hk; [done|].
  simpl in Hall. apply andb_true_iff in Hall as [Hc Hall].
  rewrite app_cons. cbn [plus_greedy]. rewrite Hc.
  destruct x as [|c' x].
  - rewrite app_empty_l, plus_greedy_stops by done. done.
  - by rewrite (IH (λ m r, k (String c m) r) y).
Qed.
End Runs.

Lemma search_here p s g : match_at p s = Some g → search p s = Some g.
Proof. intros H. destruct s; simpl; by rewrite H. Qed.

Lemma search_later p (pre s : string) g :
  match_at p s = Some g → is_Some (search p (pre +:+ s)).
Proof.
  intros H. induction pre as [|c pre IH].
  - rewrite app_empty_l, (search_here _ _ _ H). by eexists.
  - rewrite app_cons. simpl.
    destruct (match_at p (String c _)); [by eexists|done].
Qed.

(** Text whose characters all differ from the first character of the
    pattern cannot hold the start of a match. *)
Lemma search_skip p c t (pre s : string) :
  before p = lit (String c t) → lacks c pre = true →
  search p (pre +:+ s) = search p s.
Proof.
  intros Hb. unfold lacks. induction pre as [|c' pre IH]; [done|].
  cbn [all_chars]. intros [Hc Hpre]%andb_true_iff.
  apply negb_true_iff, bool_decide_eq_false in Hc.
  rewrite app_cons. cbn [search]. unfold match_at at 1.
  rewrite Hb, mtch_lit_head by (left; done). by apply IH.
Qed.

Lemma decimal_tail_stops metric n post :
  stops (CUnion CDigit (CChar "."%char))
    (measurement_tail metric n +:+ post) = true.
Proof. by destruct metric. Qed.

Lemma match_at_measurement metric sys (x n post : string) :
  x ≠ EmptyString → all_chars is_decimal x = true →
  (metric = SIZE → n ≠ EmptyString ∧ all_chars is_digit n = true) →
  match_at (pattern_of metric sys)
    (measurement_label metric sys +:+ x +:+ measurement_tail metric n +:+ post)
  = Some x.
Proof.
  intros Hx Hall Hn. unfold match_at.
  assert (Hb : before (pattern_of metric sys)
               = lit (measurement_label metric sys))
    by by destruct metric, sys.
  assert (Hg : group1 (pattern_of metric sys) = decimal)
    by by destruct metric, sys.
  rewrite Hb, Hg, mtch_lit. unfold decimal. cbn [mtch].
  apply plus_greedy_run; [done|done|apply decimal_tail_stops|].
  destruct metric.
  - destruct (Hn eq_refl) as [Hn1 Hn2].
    assert (Ha : after (pattern_of SIZE sys)
                 = Cat (lit " MB, ") (Cat (Plus CDigit) (lit "B")))
      by by destruct sys.
    rewrite Ha. unfold measurement_tail.
    rewrite !string_app_assoc. cbn [mtch]. rewrite mtch_lit.
    apply plus_greedy_run; [done|exact Hn2|reflexivity|].
    by rewrite mtch_lit.
  - assert (Ha : after (pattern_of SCAN_TIME sys) = lit "ms")
      by by destruct sys.
    rewrite Ha. unfold measurement_tail. by rewrite mtch_lit.
Qed.

(** X6: the measurement patterns read back what a harness prints. In a
    line made of some text without the first letter of the label, the
    label of a system for a metric, a value of digits and dots, the rest
    of the phrase (for a size [" MB, "], a byte count and ["B"]; for a
    scan time ["ms"]) and anything after it, the pattern of that system
    captures exactly the value. *)
Theorem X6_measurement_read_back
    (metric : Metric) (sys : System) (pre x n post : string) :
  x ≠ EmptyString → all_chars is_decimal x = true →
  (metric = SIZE → n ≠ EmptyString ∧ all_chars is_digit n = true) →
  lacks (head_char (measurement_label metric sys)) pre = true →
  search (pattern_of metric sys)
    (pre +:+ measurement_label metric sys +:+ x
     +:+ measurement_tail metric n +:+ post)
  = Some x.
Proof.
  intros Hx Hall Hn Hpre.
  rewrite (search_skip _ (head_char (measurement_label metric sys))
             (match measurement_label metric sys with
              | String _ t => t | EmptyString => EmptyString end));
    [|by destruct metric, sys|done].
  by apply search_here, match_at_measurement.
Qed.

Lemma X6_measurement_read_back_witness :
  search (pattern_of SIZE lance)
    ("[12:00:01] info " +:+ measurement_label SIZE lance +:+ "14.75"
     +:+ measurement_tail SIZE "15466496" +:+ " (done)")
  = Some "14.75".
Proof.
  apply X6_measurement_read_back.
  - discriminate.
  - reflexivity.
  - intros _. split; [discriminate|reflexivity].
  - reflexivity.
Defined.

Lemma match_at_workload (w post : string) :
  w ≠ EmptyString → all_chars is_word w = true →
  match_at workload_pattern ("/parquet/" +:+ w +:+ ".parquet" +:+ post)
  = Some w.
Proof.
  intros Hw Hall. unfold match_at, workload_pattern.
  cbn [before group1 after]. rewrite mtch_lit. cbn [mtch].
  apply plus_greedy_run; [done|done|done|].
  change (".parquet" +:+ post) with (String "."%char ("parquet" +:+ post)).
  cbn [mtch cset_mem]. simpl negb. cbv iota. by rewrite mtch_lit.
Qed.

Lemma workload_skip (pre s : string) :
  no_slash_p pre = true →
  search workload_pattern (pre +:+ String "/"%char s)
  = search workload_pattern (String "/"%char s).
Proof.
  induction pre as [|c1 pre IH]; [done|]. intros Hpre.
  rewrite app_cons. cbn [search].
  assert (Hm : match_at workload_pattern
                 (String c1 (pre +:+ String "/"%char s)) = None).
  { unfold match_at, workload_pattern. cbn [before lit mtch cset_mem].
    destruct (bool_decide (c1 = "/"%char)) eqn:H1; [|done].
    apply bool_decide_eq_true in H1. subst c1.
    destruct pre as [|c2 pre].
    - by rewrite app_empty_l.
    - rewrite app_cons. cbn [no_slash_p] in Hpre.
      apply andb_true_iff in Hpre as [Hc _].
      apply negb_true_iff in Hc. rewrite bool_decide_true in Hc by done.
      simpl in Hc. by rewrite Hc. }
  rewrite Hm. apply IH.
  destruct pre as [|c2 pre]; [done|]. simpl in Hpre.
  by apply andb_true_iff in Hpre as [_ ?].
Qed.

(** X7: the workload pattern reads back a data set path. A line that
    holds [/parquet/], a name of word characters and [.parquet] always
    sets the workload; when no slash before that place is directly
    followed by the letter p, as in [/mnt/data/parquet/core.parquet],
    the workload is exactly that name. *)
Theorem X7_workload_read_back (pre w post : string) :
  w ≠ EmptyString → all_chars is_word w = true →
  is_Some (search workload_pattern
             (pre +:+ "/parquet/" +:+ w +:+ ".parquet" +:+ post))
  ∧ (no_slash_p pre = true →
     search workload_pattern
       (pre +:+ "/parquet/" +:+ w +:+ ".parquet" +:+ post) = Some w).
Proof.
  intros Hw Hall.
  pose proof (match_at_workload w post Hw Hall) as Hm. split.
  - by eapply search_later.
  - intros Hpre.
    change ("/parquet/" +:+ w +:+ ".parquet" +:+ post)
      with (String "/"%char ("parquet/" +:+ w +:+ ".parquet" +:+ post)).
    rewrite workload_skip by done. by apply search_here.
Qed.

Lemma X7_workload_read_back_witness :
  search workload_pattern
    ("bench /mnt/nvme0n1/xinyu/data" +:+ "/parquet/" +:+ "core"
     +:+ ".parquet" +:+ " rows=10") = Some "core".
Proof.
  apply X7_workload_read_back; [discriminate|reflexivity|reflexivity].
Defined.

(** * Further properties of the table and of the exporter *)

Lemma cluster_commit metric (data : Table) w vals ls :
  well_formed_cluster metric w vals ls →
  scan metric (data, init) ls
  = (commit metric data w (vals parquet) (vals vortex) (vals lance), init).
Proof.
  intros (h & line_of & Hh & Hm & Hp). by eapply cluster_scan.
Qed.

(** X8: a log that is a sequence of well-formed clusters, one after the
    other, is read cluster by cluster: the pass performs exactly the
    commits of the clusters, in their order, and ends with the correlator
    reset. *)
Theorem X8_clusters_in_sequence
    (metric : Metric) (data : Table)
    (cs : list (string * (System → string) * list string)) :
  Forall (λ c, well_formed_cluster metric c.1.1 c.1.2 c.2) cs →
  scan metric (data, init) (concat cs.*2)
  = (fold_left (commit_cluster metric) cs data, init).
Proof.
  intros H. revert data. induction H as [|[[w vals] ls] cs Hc _ IH];
    intros data; [done|].
  rewrite fmap_cons. cbn [concat fold_left snd]. rewrite scan_app.
  simpl in Hc. rewrite (cluster_commit _ _ _ _ _ Hc). apply IH.
Qed.

Lemma demo_cluster1 :
  well_formed_cluster SIZE "core" demo_vals
    [demo_line lance; demo_header; demo_line vortex; demo_line parquet].
Proof.
  exists demo_header, demo_line. split_and!.
  - exact demo_header_line.
  - exact demo_measure_line.
  - apply (bool_decide_unpack _). vm_compute. reflexivity.
Defined.

Lemma demo_cluster2 :
  well_formed_cluster SIZE "lineitem" demo_vals2
    [demo_header2; demo_line2 parquet; demo_line2 vortex; demo_line2 lance].
Proof.
  exists demo_header2, demo_line2. split_and!.
  - exact demo_header2_line.
  - exact demo_measure_line2.
  - reflexivity.
Defined.

Lemma X8_clusters_in_sequence_witness :
  scan SIZE ([], init)
    (concat
       [("core", demo_vals,
          [demo_line lance; demo_header; demo_line vortex; demo_line parquet]);
        ("lineitem", demo_vals2,
          [demo_header2; demo_line2 parquet; demo_line2 vortex;
           demo_line2 lance])].*2)
  = (commit SIZE (commit SIZE [] "core" "12.5" "9.25" "14")
       "lineitem" "7.5" "6.25" "8", init).
Proof.
  apply (X8_clusters_in_sequence SIZE []
           [("core", demo_vals, _); ("lineitem", demo_vals2, _)]).
  constructor; [exact demo_cluster1|].
  constructor; [exact demo_cluster2|constructor].
Defined.

Lemma workload_value_ok line w :
  search workload_pattern line = Some w → value_ok w.
Proof.
  intros H. split; [by apply workload_capture in H as [? _]|].
  by apply workload_plain in H.
Qed.

Lemma metric_value_ok metric sys line x :
  search (pattern_of metric sys) line = Some x → value_ok x.
Proof.
  intros H. split; [by apply metric_capture in H as [? _]|].
  by apply metric_plain in H.
Qed.

Lemma write_fields_row_values metric w p v l r :
  value_ok w → value_ok p → value_ok v → value_ok l →
  r = ∅ ∨ row_values value_ok r →
  row_values value_ok (write_fields metric w p v l r).
Proof.
  intros Hw Hp Hv Hl Hr.
  assert (Hok : row_values value_ok r).
  { destruct Hr as [->|?]; [apply map_Forall_empty|done]. }
  unfold write_fields, row_values.
  repeat (apply map_Forall_insert_2;
          [split; [first [apply field_in_fieldnames
                         |apply (bool_decide_unpack _); vm_compute; reflexivity]
                  |done] |]).
  done.
Qed.

Lemma result_table_row_values compress_log scan_log k r :
  tlookup (result_table compress_log scan_log) k = Some r →
  row_values value_ok r.
Proof.
  unfold result_table. rewrite !run_pass_scan.
  apply (scan_invariant SCAN_TIME value_ok (λ _ r, row_values value_ok r)).
  - apply workload_value_ok.
  - apply metric_value_ok.
  - intros. by apply write_fields_row_values.
  - split; [done|]. by intros [].
  - apply (scan_invariant SIZE value_ok (λ _ r, row_values value_ok r)).
    + apply workload_value_ok.
    + apply metric_value_ok.
    + intros. by apply write_fields_row_values.
    + split; [done|]. by intros [].
    + done.
Qed.

(** X9: in the table [get_result_csv] builds, every text stored in a row
    is non-empty, holds no comma, quote or line break, and stands under
    one of the seven field names; so a cell of the exported file is
    empty exactly when the row lacks the field. *)
Theorem X9_stored_values
    (compress_log scan_log k : string) (r : gmap string string) (f : string) :
  tlookup (result_table compress_log scan_log) k = Some r →
  (∀ x, r !! f = Some x →
        f ∈ fieldnames ∧ x ≠ EmptyString ∧ needs_quote x = false)
  ∧ (default EmptyString (r !! f) = EmptyString ↔ r !! f = None).
Proof.
  intros Hr. apply result_table_row_values in Hr.
  assert (H : ∀ x, r !! f = Some x →
                f ∈ fieldnames ∧ x ≠ EmptyString ∧ needs_quote x = false).
  { intros x Hx. by destruct (Hr f x Hx) as (? & ? & ?). }
  split; [done|].
  destruct (r !! f) as [x|] eqn:E; simpl; [|done].
  split; [|done]. intros ->. by destruct (H "" eq_refl) as (_ & ? & _).
Qed.

Lemma X9_stored_values_witness :
  (∀ x, fresh_row SIZE "core" "12.5" "9.25" "14" !! "vortex_size" = Some x →
        "vortex_size" ∈ fieldnames ∧ x ≠ EmptyString
        ∧ needs_quote x = false)
  ∧ (default EmptyString
       (fresh_row SIZE "core" "12.5" "9.25" "14" !! "vortex_size")
     = EmptyString
     ↔ fresh_row SIZE "core" "12.5" "9.25" "14" !! "vortex_size" = None).
Proof.
  apply (X9_stored_values demo_size_log demo_scan_log "core").
  vm_compute. reflexivity.
Defined.

(** X11: the columns [plot] looks up are columns of the exported file.
    For each metric and system the column [subplot] reads is one of the
    seven field names, is not the workload column, and is the field
    under which a commit for that metric stores the value of that
    system; different pairs of metric and system read different columns,
    the workload column [plot] uses for the labels is a field name too,
    and the two charts are saved under different paths. *)
Theorem X11_plot_columns
    (metric : Metric) (sys : System) (data : Table) (w p v l : string) :
  subplot_column metric sys ∈ fieldnames
  ∧ "workload" ∈ fieldnames
  ∧ subplot_column metric sys ≠ "workload"
  ∧ tlookup (commit metric data w p v l) w
      ≫= (λ r, r !! subplot_column metric sys)
    = Some (match sys with parquet => p | vortex => v | lance => l end)
  ∧ (∀ metric' sys',
       subplot_column metric sys = subplot_column metric' sys' ↔
       metric = metric' ∧ sys = sys')
  ∧ savefig_path SIZE ≠ savefig_path SCAN_TIME.
Proof.
  assert (Hf : subplot_column metric sys = field metric sys)
    by by destruct metric, sys.
  split_and!.
  - rewrite Hf. apply field_in_fieldnames.
  - apply (bool_decide_unpack _). vm_compute. reflexivity.
  - rewrite Hf. apply field_not_workload.
  - rewrite tlookup_commit, decide_True, Hf by done. simpl.
    apply (write_fields_field metric w _
             (λ s, match s with parquet => p | vortex => v | lance => l end)).
  - intros metric' sys'. split; [|by intros [-> ->]].
    by destruct metric, sys, metric', sys'.
  - done.
Qed.

(** ** White space around the log *)

Lemma lstrip_spaces (ws s : string) :
  all_chars is_space ws = true → lstrip (ws +:+ s) = lstrip s.
Proof.
  induction ws as [|c ws IH]; [done|]. cbn [all_chars].
  intros [Hc Hws]%andb_true_iff. rewrite app_cons. cbn [lstrip].
  rewrite Hc. by apply IH.
Qed.

Lemma rstrip_spaces (ws : string) :
  all_chars is_space ws = true → rstrip ws = EmptyString.
Proof.
  induction ws as [|c ws IH]; [done|]. cbn [all_chars].
  intros [Hc Hws]%andb_true_iff. cbn [rstrip]. by rewrite IH, Hc.
Qed.

Lemma rstrip_app_spaces (s ws : string) :
  all_chars is_space ws = true → rstrip (s +:+ ws) = rstrip s.
Proof.
  intros Hws. induction s as [|c s IH].
  - rewrite app_empty_l. by apply rstrip_spaces.
  - rewrite app_cons. cbn [rstrip]. by rewrite IH.
Qed.

Lemma strip_spaces (ws1 s ws2 : string) :
  all_chars is_space ws1 = true → all_chars is_space ws2 = true →
  strip (ws1 +:+ s +:+ ws2) = strip s.
Proof.
  intros H1 H2. unfold strip. rewrite lstrip_spaces by done.
  induction s as [|c s IH].
  - rewrite app_empty_l. assert (lstrip ws2 = EmptyString) as ->; [|done].
    rewrite <-(app_empty_r ws2). by rewrite lstrip_spaces.
  - rewrite app_cons. cbn [lstrip]. destruct (is_space c); [done|].
    by rewrite <-app_cons, rstrip_app_spaces.
Qed.

(** X12: white space before the first line and after the last line of a
    log (spaces, tabs, line breaks, empty lines) does not change what
    [process_log] makes of it. *)
Theorem X12_surrounding_whitespace
    (data : Table) (ws1 log_data ws2 : string) (pp vp lp : Pattern)
    (metric : Metric) :
  all_chars is_space ws1 = true → all_chars is_space ws2 = true →
  process_log data (ws1 +:+ log_data +:+ ws2) pp vp lp metric
  = process_log data log_data pp vp lp metric.
Proof. intros H1 H2. unfold process_log. by rewrite strip_spaces. Qed.

Lemma X12_surrounding_whitespace_witness :
  process_log [] ((nl +:+ "  ") +:+ demo_shuffled_log +:+ (nl +:+ " " +:+ nl))
    (parquet_pattern SIZE) (vortex_pattern SIZE) (lance_pattern SIZE) SIZE
  = process_log [] demo_shuffled_log
      (parquet_pattern SIZE) (vortex_pattern SIZE) (lance_pattern SIZE) SIZE.
Proof. apply X12_surrounding_whitespace; reflexivity. Defined.
